(** * Shallow embedding of the subtuner optimization pipeline

    Sources: [subtuner/parsers/base.py] (Subtitle), [subtuner/config.py]
    (OptimizationConfig), [subtuner/optimization/statistics.py],
    [subtuner/optimization/algorithms/*.py] and
    [subtuner/optimization/engine.py].

    Times are Python floats in the source; they are modelled here as exact
    rationals [Q].  Comparisons are the boolean tests [Qle_bool] and
    [Qltb] below, so every definition evaluates on concrete inputs. *)

From Stdlib Require Import QArith Qabs List String Ascii Bool Lia Lqa ZArith Permutation.
Import ListNotations.
Open Scope Q_scope.

(** ** Comparisons on times *)

Definition Qltb (a b : Q) : bool := negb (Qle_bool b a).

(** Python's [min(a, b)] returns [a] unless [b < a]; [max(a, b)] returns
    [a] unless [b > a]. *)
Definition py_min (a b : Q) : Q := if Qltb b a then b else a.
Definition py_max (a b : Q) : Q := if Qltb a b then b else a.

(** ** parsers/base.py : Subtitle *)

Record Subtitle := mkSubtitle {
  index : Z;
  start_time : Q;
  end_time : Q;
  text : string;
  metadata : list (string * string)
}.

Definition duration (s : Subtitle) : Q := end_time s - start_time s.

Definition with_start_time (s : Subtitle) (t : Q) : Subtitle :=
  mkSubtitle (index s) t (end_time s) (text s) (metadata s).

Definition with_end_time (s : Subtitle) (t : Q) : Subtitle :=
  mkSubtitle (index s) (start_time s) t (text s) (metadata s).

Definition with_times (s : Subtitle) (t0 t1 : Q) : Subtitle :=
  mkSubtitle (index s) t0 t1 (text s) (metadata s).

(** [str.isspace] on ASCII: tab, LF, VT, FF, CR, the separators
    0x1c..0x1f and space. *)
Definition is_space (c : ascii) : bool :=
  let n := nat_of_ascii c in
  (Nat.leb 9 n && Nat.leb n 13) || (Nat.leb 28 n && Nat.leb n 32).

Fixpoint drop_while_space (l : list ascii) : list ascii :=
  match l with
  | [] => []
  | c :: r => if is_space c then drop_while_space r else l
  end.

Definition py_strip (l : list ascii) : list ascii :=
  rev (drop_while_space (rev (drop_while_space l))).

(** Remainder of [l] after the first occurrence of [close], if any. *)
Fixpoint after_char (close : ascii) (l : list ascii) : option (list ascii) :=
  match l with
  | [] => None
  | c :: r => if Ascii.eqb c close then Some r else after_char close r
  end.

(** [re.sub(open + '[^' + close + ']*' + close, '', s)]: a match starts at
    the leftmost [open] that is followed by some [close] and ends at the
    first such [close]. *)
Fixpoint remove_tags (fuel : nat) (open close : ascii) (l : list ascii)
  : list ascii :=
  match fuel with
  | O => l
  | S f =>
    match l with
    | [] => []
    | c :: r =>
      if Ascii.eqb c open then
        match after_char close r with
        | Some r' => remove_tags f open close r'
        | None => c :: remove_tags f open close r
        end
      else c :: remove_tags f open close r
    end
  end.

Definition char_count (s : Subtitle) : nat :=
  let l := list_ascii_of_string (text s) in
  let l1 := remove_tags (List.length l) "<"%char ">"%char l in
  let l2 := remove_tags (List.length l1) "{"%char "}"%char l1 in
  List.length (py_strip l2).

Definition validate (s : Subtitle) : bool :=
  if Qltb (start_time s) 0 then false
  else if Qle_bool (end_time s) (start_time s) then false
  else if (String.eqb (text s) "")%string then false
  else match py_strip (list_ascii_of_string (text s)) with
       | [] => false
       | _ => true
       end.

(** ** config.py : OptimizationConfig *)

Record OptimizationConfig := mkConfig {
  chars_per_sec : Q;
  max_duration : Q;
  min_duration : Q;
  min_gap : Q;
  short_threshold : Q;
  long_threshold : Q;
  max_anticipation : Q
}.

Definition default_config : OptimizationConfig :=
  mkConfig 20 8 1 (1#20) (4#5) 3 (1#2).

Definition in_range (lo x hi : Q) : bool := Qle_bool lo x && Qle_bool x hi.

(** [OptimizationConfig.validate]: construction raises unless all hold. *)
Definition config_valid (c : OptimizationConfig) : bool :=
  in_range 10 (chars_per_sec c) 40 &&
  in_range 3 (max_duration c) 15 &&
  in_range (1#2) (min_duration c) 2 &&
  Qltb (min_duration c) (max_duration c) &&
  in_range (1#100) (min_gap c) (1#5) &&
  in_range (1#2) (short_threshold c) (3#2) &&
  in_range 2 (long_threshold c) 6 &&
  Qltb (short_threshold c) (long_threshold c) &&
  in_range 0 (max_anticipation c) 1.

(** ** optimization/statistics.py : OptimizationStatistics *)

Record OptimizationStatistics := mkStats {
  track_index : Z;
  original_subtitle_count : nat;
  final_subtitle_count : nat;
  merged_subtitles : nat;
  duration_adjustments : nat;
  total_duration_change : Q;
  duration_changes : list Q;
  rebalanced_pairs : nat;
  total_time_transferred : Q;
  rebalancing_transfers : list Q;
  anticipated_subtitles : nat;
  total_anticipation : Q;
  anticipation_amounts : list Q;
  min_duration_fixes : nat;
  gap_fixes : nat;
  chronology_fixes : nat;
  invalid_removed : nat;
  processing_time : Q;
  stats_start_time : option Q
}.

(** [OptimizationStatistics(track_index=t)]: every other field at its
    dataclass default. *)
Definition new_stats (t : Z) : OptimizationStatistics :=
  mkStats t 0 0 0 0 0 [] 0 0 [] 0 0 [] 0 0 0 0 0 None.

(** Field updates, one per assignment made by the source. *)
Definition set_counts (o f : nat) (s : OptimizationStatistics) :=
  let (a, _, _, b, c, d, e, g, h, i, j, k, l, m, n, p, q, r, u) := s in
  mkStats a o f b c d e g h i j k l m n p q r u.

Definition add_duration_change (change : Q) (s : OptimizationStatistics) :=
  if Qltb (1#100) (Qabs change) then
    let (a, o, f, b, c, d, e, g, h, i, j, k, l, m, n, p, q, r, u) := s in
    mkStats a o f b (S c) (d + change) (e ++ [change]) g h i j k l m n p q r u
  else s.

Definition add_rebalancing_transfer (t : Q) (s : OptimizationStatistics) :=
  if Qltb (1#100) t then
    let (a, o, f, b, c, d, e, g, h, i, j, k, l, m, n, p, q, r, u) := s in
    mkStats a o f b c d e (S g) (h + t) (i ++ [t]) j k l m n p q r u
  else s.

Definition add_anticipation (t : Q) (s : OptimizationStatistics) :=
  if Qltb (1#100) t then
    let (a, o, f, b, c, d, e, g, h, i, j, k, l, m, n, p, q, r, u) := s in
    mkStats a o f b c d e g h i (S j) (k + t) (l ++ [t]) m n p q r u
  else s.

Definition incr_min_duration_fixes (s : OptimizationStatistics) :=
  let (a, o, f, b, c, d, e, g, h, i, j, k, l, m, n, p, q, r, u) := s in
  mkStats a o f b c d e g h i j k l (S m) n p q r u.

Definition incr_gap_fixes (s : OptimizationStatistics) :=
  let (a, o, f, b, c, d, e, g, h, i, j, k, l, m, n, p, q, r, u) := s in
  mkStats a o f b c d e g h i j k l m (S n) p q r u.

Definition incr_chronology_fixes (s : OptimizationStatistics) :=
  let (a, o, f, b, c, d, e, g, h, i, j, k, l, m, n, p, q, r, u) := s in
  mkStats a o f b c d e g h i j k l m n (S p) q r u.

Definition incr_invalid_removed (s : OptimizationStatistics) :=
  let (a, o, f, b, c, d, e, g, h, i, j, k, l, m, n, p, q, r, u) := s in
  mkStats a o f b c d e g h i j k l m n p (S q) r u.

(** [start_timing] / [stop_timing]; [now] is the value of [time.time()]. *)
Definition start_timing (now : Q) (s : OptimizationStatistics) :=
  let (a, o, f, b, c, d, e, g, h, i, j, k, l, m, n, p, q, r, _) := s in
  mkStats a o f b c d e g h i j k l m n p q r (Some now).

Definition stop_timing (now : Q) (s : OptimizationStatistics) :=
  match stats_start_time s with
  | None => s
  | Some t0 =>
    let (a, o, f, b, c, d, e, g, h, i, j, k, l, m, n, p, q, _, u) := s in
    mkStats a o f b c d e g h i j k l m n p q (now - t0) u
  end.

(** ** Overlap registry: a Python set of index pairs *)

Definition Registry := list (Z * Z).

Definition reg_mem (p : Z * Z) (r : Registry) : bool :=
  existsb (fun q => Z.eqb (fst p) (fst q) && Z.eqb (snd p) (snd q)) r.

(** [OptimizationEngine._detect_original_overlaps] *)
Fixpoint detect_overlaps_from (i : Z) (subs : list Subtitle) : Registry :=
  match subs with
  | cur :: ((nxt :: _) as rest) =>
    (if Qltb (start_time nxt) (end_time cur) then [(i, (i + 1)%Z)] else [])
      ++ detect_overlaps_from (i + 1)%Z rest
  | _ => []
  end.

Definition _detect_original_overlaps (subs : list Subtitle) : Registry :=
  detect_overlaps_from 0%Z subs.

(** ** algorithms/duration_adjuster.py : DurationAdjuster *)

Definition ideal_duration (s : Subtitle) (cfg : OptimizationConfig) : Q :=
  inject_Z (Z.of_nat (char_count s)) / chars_per_sec cfg.

(** [adjust_duration]; [None] for [max_possible_duration] is [float('inf')]. *)
Definition adjust_duration (current : Subtitle) (next_subtitle : option Subtitle)
    (cfg : OptimizationConfig) (is_overlap_allowed : bool) : Subtitle :=
  let target_duration :=
    py_max (min_duration cfg) (py_min (max_duration cfg) (ideal_duration current cfg)) in
  let max_possible_duration :=
    match next_subtitle with
    | Some nxt =>
      if is_overlap_allowed then Some (end_time nxt - start_time current)
      else Some ((start_time nxt - min_gap cfg) - start_time current)
    | None => None
    end in
  let new_duration :=
    match max_possible_duration with
    | Some m => py_min target_duration m
    | None => target_duration
    end in
  let final_duration := py_max new_duration (duration current) in
  let final_duration :=
    if Qle_bool final_duration 0 then duration current else final_duration in
  with_end_time current (start_time current + final_duration).

Fixpoint duration_loop (cfg : OptimizationConfig) (allowed : Registry) (i : Z)
    (subs : list Subtitle) (st : OptimizationStatistics)
    : list Subtitle * OptimizationStatistics :=
  match subs with
  | [] => ([], st)
  | subtitle :: rest =>
    let next_subtitle := hd_error rest in
    let is_overlap_allowed :=
      match next_subtitle with
      | Some _ => reg_mem (i, (i + 1)%Z) allowed
      | None => false
      end in
    let adjusted := adjust_duration subtitle next_subtitle cfg is_overlap_allowed in
    let change := duration adjusted - duration subtitle in
    let st1 := if Qltb (1#100) (Qabs change) then add_duration_change change st
               else st in
    let (l, st2) := duration_loop cfg allowed (i + 1)%Z rest st1 in
    (adjusted :: l, st2)
  end.

(** [DurationAdjuster.process]; the optional [allowed_overlaps] defaults to
    the empty set when omitted ([None]). *)
Definition duration_process (subs : list Subtitle) (cfg : OptimizationConfig)
    (st : OptimizationStatistics) (allowed_overlaps : option Registry)
    : list Subtitle * OptimizationStatistics :=
  match subs with
  | [] => (subs, st)
  | _ =>
    let allowed := match allowed_overlaps with Some r => r | None => [] end in
    duration_loop cfg allowed 0%Z subs st
  end.

(** ** algorithms/rebalancer.py : TemporalRebalancer *)

Definition should_rebalance (current next_subtitle : Subtitle)
    (cfg : OptimizationConfig) : bool :=
  Qltb (duration current) (short_threshold cfg) &&
  Qltb (long_threshold cfg) (duration next_subtitle).

Definition validate_rebalancing (original_current original_next new_current new_next : Subtitle)
    (cfg : OptimizationConfig) : bool :=
  if Qle_bool (end_time new_current) (start_time new_current) then false
  else if Qle_bool (end_time new_next) (start_time new_next) then false
  else if Qltb (start_time new_next - end_time new_current) (min_gap cfg) then false
  else if Qle_bool (duration new_current) (duration original_current) then false
  else if Qltb (duration new_next) (min_duration cfg) then false
  else if Qltb (duration new_next) (duration original_current) then false
  else true.

Definition rebalance_pair (current next_subtitle : Subtitle) (cfg : OptimizationConfig)
    : Subtitle * Subtitle * Q :=
  if negb (should_rebalance current next_subtitle cfg) then (current, next_subtitle, 0)
  else
    let current_deficit := short_threshold cfg - duration current in
    let next_surplus := duration next_subtitle - long_threshold cfg in
    let transfer_amount := py_min current_deficit next_surplus in
    if Qle_bool transfer_amount 0 then (current, next_subtitle, 0)
    else
      let new_current_end := end_time current + transfer_amount in
      let new_next_start := new_current_end + min_gap cfg in
      if Qle_bool (end_time next_subtitle) new_next_start then
        (current, next_subtitle, 0)
      else
        let new_current := with_end_time current new_current_end in
        let new_next := with_start_time next_subtitle new_next_start in
        if negb (validate_rebalancing current next_subtitle new_current new_next cfg)
        then (current, next_subtitle, 0)
        else (new_current, new_next, transfer_amount).

(** The [while i < len(rebalanced) - 1] loop: [current] is
    [rebalanced[i]], already updated by the previous pair. *)
Fixpoint rebalance_loop (cfg : OptimizationConfig) (current : Subtitle)
    (rest : list Subtitle) (st : OptimizationStatistics)
    : list Subtitle * OptimizationStatistics :=
  match rest with
  | [] => ([current], st)
  | next_subtitle :: rest' =>
    let '(new_current, new_next, transferred) :=
      rebalance_pair current next_subtitle cfg in
    if Qltb 0 transferred then
      let (l, st') := rebalance_loop cfg new_next rest'
                        (add_rebalancing_transfer transferred st) in
      (new_current :: l, st')
    else
      let (l, st') := rebalance_loop cfg next_subtitle rest' st in
      (current :: l, st')
  end.

Definition rebalance_process (subs : list Subtitle) (cfg : OptimizationConfig)
    (st : OptimizationStatistics) : list Subtitle * OptimizationStatistics :=
  match subs with
  | first :: ((_ :: _) as rest) => rebalance_loop cfg first rest st
  | _ => (subs, st)
  end.

(** ** algorithms/anticipator.py : AnticipationAdjuster *)

Definition calculate_max_anticipation (current : Subtitle) (previous : option Subtitle)
    (cfg : OptimizationConfig) : Q :=
  match previous with
  | None => max_anticipation cfg
  | Some prev =>
    let available_anticipation := (start_time current - end_time prev) - min_gap cfg in
    py_max 0 available_anticipation
  end.

Definition is_beneficial (subtitle : Subtitle) (anticipation : Q)
    (cfg : OptimizationConfig) : bool :=
  let min_benefit := 1#10 in
  if Qle_bool anticipation 0 then false
  else if Qltb anticipation min_benefit then false
  else if Qle_bool (ideal_duration subtitle cfg) (duration subtitle)
          && Qle_bool (min_duration cfg) (duration subtitle) then false
  else true.

Definition validate_anticipation (original anticipated : Subtitle)
    (previous : option Subtitle) (cfg : OptimizationConfig) : bool :=
  if Qle_bool (end_time anticipated) (start_time anticipated) then false
  else if Qle_bool (duration anticipated) (duration original) then false
  else if match previous with
          | Some prev => Qltb (start_time anticipated - end_time prev) (min_gap cfg)
          | None => false
          end then false
  else if Qltb (start_time anticipated) 0 then false
  else true.

Definition apply_anticipation (current : Subtitle) (previous : option Subtitle)
    (cfg : OptimizationConfig) : Subtitle * Q :=
  let max_offset := calculate_max_anticipation current previous cfg in
  if Qle_bool max_offset 0 then (current, 0)
  else
    let actual_offset := py_min max_offset (max_anticipation cfg) in
    if negb (is_beneficial current actual_offset cfg) then (current, 0)
    else
      let new_subtitle := with_start_time current (start_time current - actual_offset) in
      if negb (validate_anticipation current new_subtitle previous cfg)
      then (current, 0)
      else (new_subtitle, actual_offset).

(** [anticipated] is kept reversed: its head is [anticipated[-1]]. *)
Fixpoint anticipation_loop (cfg : OptimizationConfig) (subs : list Subtitle)
    (anticipated : list Subtitle) (st : OptimizationStatistics)
    : list Subtitle * OptimizationStatistics :=
  match subs with
  | [] => (rev anticipated, st)
  | subtitle :: rest =>
    let '(adjusted, offset) := apply_anticipation subtitle (hd_error anticipated) cfg in
    let st' := if Qltb 0 offset then add_anticipation offset st else st in
    anticipation_loop cfg rest (adjusted :: anticipated) st'
  end.

Definition anticipation_process (subs : list Subtitle) (cfg : OptimizationConfig)
    (st : OptimizationStatistics) : list Subtitle * OptimizationStatistics :=
  match subs with
  | [] => (subs, st)
  | _ => anticipation_loop cfg subs [] st
  end.

(** ** algorithms/validator.py : ConstraintsValidator *)

Definition fix_minimum_duration (subtitle : Subtitle) (cfg : OptimizationConfig)
    (st : OptimizationStatistics) : Subtitle * OptimizationStatistics :=
  if Qle_bool (min_duration cfg) (duration subtitle) then (subtitle, st)
  else (with_end_time subtitle (start_time subtitle + min_duration cfg),
        incr_min_duration_fixes st).

Definition fix_minimum_gap (current : Subtitle) (previous : option Subtitle)
    (cfg : OptimizationConfig) (st : OptimizationStatistics)
    : Subtitle * OptimizationStatistics :=
  match previous with
  | None => (current, st)
  | Some prev =>
    let current_gap := start_time current - end_time prev in
    if Qle_bool (min_gap cfg) current_gap then (current, st)
    else if Qltb current_gap (-(1#2)) then (current, st)
    else
      let required_start := end_time prev + min_gap cfg in
      (with_times current required_start (required_start + duration current),
       incr_gap_fixes st)
  end.

Definition is_chronologically_valid (current : Subtitle) (previous : option Subtitle) : bool :=
  match previous with
  | None => true
  | Some prev => Qle_bool (start_time prev) (start_time current)
  end.

Definition has_valid_time_range (s : Subtitle) : bool :=
  Qle_bool 0 (start_time s) && Qltb (start_time s) (end_time s) && Qltb 0 (duration s).

(** [apply_all_fixes]; its [next_subtitle] argument is never read by the
    source and is left out. *)
Definition apply_all_fixes (current : Subtitle) (previous : option Subtitle)
    (cfg : OptimizationConfig) (st : OptimizationStatistics)
    (is_allowed_overlap : bool) : Subtitle * OptimizationStatistics :=
  let (fixed1, st1) := fix_minimum_duration current cfg st in
  let (fixed, st2) :=
    if negb is_allowed_overlap then fix_minimum_gap fixed1 previous cfg st1
    else (fixed1, st1) in
  if negb (is_chronologically_valid fixed previous) then
    (current, incr_chronology_fixes st2)
  else if negb (has_valid_time_range fixed) then (current, st2)
  else (fixed, st2).

(** The lookup of [validate_and_fix]: [prev_index = len(validated) - 1]
    against the position [i] of the cue in the pass's input. *)
Definition allowed_lookup (allowed : Registry) (validated_len : nat) (i : Z) : bool :=
  let prev_index := (Z.of_nat validated_len - 1)%Z in
  if (prev_index >=? 0)%Z then reg_mem (prev_index, i) allowed else false.

(** [validated] is kept reversed: its head is [validated[-1]]. *)
Fixpoint validate_loop (cfg : OptimizationConfig) (allowed : Registry) (i : Z)
    (subs : list Subtitle) (validated : list Subtitle) (st : OptimizationStatistics)
    : list Subtitle * OptimizationStatistics :=
  match subs with
  | [] => (rev validated, st)
  | current :: rest =>
    let previous := hd_error validated in
    let is_allowed_overlap := allowed_lookup allowed (List.length validated) i in
    let (fixed_subtitle, st1) :=
      apply_all_fixes current previous cfg st is_allowed_overlap in
    if validate fixed_subtitle then
      validate_loop cfg allowed (i + 1)%Z rest (fixed_subtitle :: validated) st1
    else
      validate_loop cfg allowed (i + 1)%Z rest validated (incr_invalid_removed st1)
  end.

Definition validate_and_fix (subs : list Subtitle) (cfg : OptimizationConfig)
    (st : OptimizationStatistics) (allowed : Registry)
    : list Subtitle * OptimizationStatistics :=
  validate_loop cfg allowed 0%Z subs [] st.

Definition validator_process (subs : list Subtitle) (cfg : OptimizationConfig)
    (st : OptimizationStatistics) (allowed_overlaps : option Registry)
    : list Subtitle * OptimizationStatistics :=
  match subs with
  | [] => (subs, st)
  | _ =>
    let allowed := match allowed_overlaps with Some r => r | None => [] end in
    validate_and_fix subs cfg st allowed
  end.

(** ** optimization/engine.py : OptimizationEngine *)

Record OptimizationResult := mkResult {
  subtitles : list Subtitle;
  statistics : OptimizationStatistics;
  original_count : nat;
  final_count : nat
}.

(** The four phases as called by [_apply_optimization_pipeline]: the
    duration adjuster is called without [allowed_overlaps], the validator
    with the registry. *)
Definition phase1 (subs : list Subtitle) (cfg : OptimizationConfig)
    (st : OptimizationStatistics) :=
  duration_process subs cfg st None.

Definition _apply_optimization_pipeline (subs : list Subtitle)
    (cfg : OptimizationConfig) (st : OptimizationStatistics)
    : list Subtitle * OptimizationStatistics :=
  let original_overlaps := _detect_original_overlaps subs in
  let current := subs in
  let (v1, st1) := phase1 current cfg st in
  let (v2, st2) := rebalance_process v1 cfg st1 in
  let (v3, st3) := anticipation_process v2 cfg st2 in
  validator_process v3 cfg st3 (Some original_overlaps).

Definition pipeline (subs : list Subtitle) (cfg : OptimizationConfig) : list Subtitle :=
  fst (_apply_optimization_pipeline subs cfg (new_stats 0)).

(** [optimize]; [t_start] and [t_stop] are the two readings of
    [time.time()]. *)
Definition optimize (subs : list Subtitle) (cfg : OptimizationConfig)
    (track : Z) (t_start t_stop : Q) : OptimizationResult :=
  match subs with
  | [] => mkResult [] (new_stats track) 0 0
  | _ =>
    let st0 := start_timing t_start
                 (set_counts (List.length subs) 0 (new_stats track)) in
    let (optimized, st1) := _apply_optimization_pipeline subs cfg st0 in
    let st2 := stop_timing t_stop
                 (set_counts (List.length subs) (List.length optimized) st1) in
    mkResult optimized st2 (List.length subs) (List.length optimized)
  end.

(** ** Properties used to state the claims *)

(** [chain R l]: [R] holds between every two adjacent elements of [l]. *)
Fixpoint chain {A : Type} (R : A -> A -> Prop) (l : list A) : Prop :=
  match l with
  | x :: ((y :: _) as r) => R x y /\ chain R r
  | _ => True
  end.

(** Starts are non-decreasing along the list. *)
Definition ordered_by_start (l : list Subtitle) : Prop :=
  chain (fun x y => start_time x <= start_time y) l.

(** [subseq l1 l2]: [l1] is obtained from [l2] by deleting elements. *)
Inductive subseq {A : Type} : list A -> list A -> Prop :=
| subseq_nil : subseq [] []
| subseq_keep : forall x l1 l2, subseq l1 l2 -> subseq (x :: l1) (x :: l2)
| subseq_drop : forall x l1 l2, subseq l1 l2 -> subseq l1 (x :: l2).

(** The validation loop again, tagging every emitted cue with the position
    [i] of [enumerate(subtitles)] it came from (the index the source logs). *)
Fixpoint validate_loop_idx (cfg : OptimizationConfig) (allowed : Registry) (i : Z)
    (subs : list Subtitle) (validated : list (Z * Subtitle))
    (st : OptimizationStatistics)
    : list (Z * Subtitle) * OptimizationStatistics :=
  match subs with
  | [] => (rev validated, st)
  | current :: rest =>
    let previous := option_map snd (hd_error validated) in
    let is_allowed_overlap := allowed_lookup allowed (List.length validated) i in
    let (fixed_subtitle, st1) :=
      apply_all_fixes current previous cfg st is_allowed_overlap in
    if validate fixed_subtitle then
      validate_loop_idx cfg allowed (i + 1)%Z rest ((i, fixed_subtitle) :: validated) st1
    else
      validate_loop_idx cfg allowed (i + 1)%Z rest validated (incr_invalid_removed st1)
  end.

(** The pipeline with the input position of every output cue.  The first
    three passes keep length and order, so the validator's positions are the
    positions in the pipeline's input. *)
Definition pipeline_indexed (subs : list Subtitle) (cfg : OptimizationConfig)
    : list (Z * Subtitle) :=
  let st := new_stats 0 in
  let (v1, st1) := phase1 subs cfg st in
  let (v2, st2) := rebalance_process v1 cfg st1 in
  let (v3, st3) := anticipation_process v2 cfg st2 in
  match v3 with
  | [] => []
  | _ => fst (validate_loop_idx cfg (_detect_original_overlaps subs) 0%Z v3 [] st3)
  end.

Definition gap (a b : Subtitle) : Q := start_time b - end_time a.

(** Between two adjacent output cues tagged with their input positions:
    unless the pair of positions is in the registry [r], the gap is at least
    [min_gap] or the cues overlap by more than half a second. *)
Definition gap_ok (cfg : OptimizationConfig) (r : Registry) (a b : Z * Subtitle) : Prop :=
  reg_mem (fst a, fst b) r = false ->
  min_gap cfg <= gap (snd a) (snd b) \/ gap (snd a) (snd b) < -(1#2).

(** Start and end of every cue, in lowest terms. *)
Definition timings (l : list Subtitle) : list (Q * Q) :=
  map (fun s => (Qred (start_time s), Qred (end_time s))) l.

(** ** Concrete inputs *)

Definition sub (i : Z) (s e : Q) (t : string) : Subtitle := mkSubtitle i s e t [].

(** Scenario S4 of the spec. *)
Definition ex_s4 : list Subtitle := [sub 0 10 11 "A"; sub 1 12 (62#5) "B"].

(** An overlapping pair whose first cue has a 60-character text. *)
Definition ex_overlap : list Subtitle :=
  [sub 0 0 1 "012345678901234567890123456789012345678901234567890123456789";
   sub 1 (1#2) 5 "B"].

(** A sorted input whose validated output is not sorted. *)
Definition ex_unsorted_out : list Subtitle :=
  [sub 0 0 1 "A"; sub 1 1 2 "B"; sub 2 (51#50) 3 "C"].

(** A non-overlapping pair left 0.8 s apart in overlap by the validator. *)
Definition ex_big_overlap : list Subtitle := [sub 0 0 (1#10) "A"; sub 1 (1#5) 1 "B"].



Definition cfg_wide_short : OptimizationConfig :=
  mkConfig 20 8 (1#2) (1#20) (3#2) 3 (1#2).

(** A cue with empty text (removed by the validator) before an overlapping
    pair that is in the registry. *)
Definition ex_removed_first : list Subtitle :=
  [sub 0 0 1 ""; sub 1 2 4 "A"; sub 2 (19#5) 6 "B"].

(** ** Further methods of the same classes *)

(** *** duration_adjuster.py : helper methods *)

Definition calculate_target_duration (subtitle : Subtitle) (chars_per_sec min_dur max_dur : Q)
    : Q :=
  let ideal := inject_Z (Z.of_nat (char_count subtitle)) / chars_per_sec in
  py_max min_dur (py_min max_dur ideal).

(** [None] is [float('inf')]. *)
Definition get_available_duration (current : Subtitle) (next_subtitle : option Subtitle)
    (min_gap : Q) : option Q :=
  match next_subtitle with
  | None => None
  | Some nxt =>
    let max_end_time := start_time nxt - min_gap in
    Some (py_max 0 (max_end_time - start_time current))
  end.

Definition validate_adjustment (original adjusted : Subtitle)
    (next_subtitle : option Subtitle) (min_gap : Q) : bool :=
  if Qltb (duration adjusted) (duration original) then false
  else if match next_subtitle with
          | Some nxt => Qltb (start_time nxt - end_time adjusted) min_gap
          | None => false
          end then false
  else if Qle_bool (end_time adjusted) (start_time adjusted) then false
  else true.

(** *** rebalancer.py : helper methods *)

Definition calculate_transfer_amount (current next_subtitle : Subtitle)
    (cfg : OptimizationConfig) : Q :=
  let current_deficit := py_max 0 (short_threshold cfg - duration current) in
  let next_surplus := py_max 0 (duration next_subtitle - long_threshold cfg) in
  py_min current_deficit next_surplus.

Module Rebalancer.

(** [TemporalRebalancer.estimate_benefit] *)
Definition estimate_benefit (current next_subtitle : Subtitle) (transfer_amount : Q)
    (cfg : OptimizationConfig) : Q :=
  if Qle_bool transfer_amount 0 then 0
  else
    let current_deficit_before := py_max 0 (short_threshold cfg - duration current) in
    let current_deficit_after :=
      py_max 0 (short_threshold cfg - (duration current + transfer_amount)) in
    let current_improvement := current_deficit_before - current_deficit_after in
    let next_surplus_before := py_max 0 (duration next_subtitle - long_threshold cfg) in
    let next_surplus_after :=
      py_max 0 ((duration next_subtitle - transfer_amount) - long_threshold cfg) in
    let next_cost := next_surplus_before - next_surplus_after in
    current_improvement - next_cost * (1#2).

End Rebalancer.

(** *** anticipator.py : helper methods *)

(** [min(a, b, c)] keeps the first of equal minima: [py_min (py_min a b) c]. *)
Definition calculate_optimal_anticipation (current : Subtitle) (previous : option Subtitle)
    (cfg : OptimizationConfig) : Q :=
  let max_a := calculate_max_anticipation current previous cfg in
  if Qle_bool max_a 0 then 0
  else
    let ideal := py_max (min_duration cfg) (py_min (max_duration cfg) (ideal_duration current cfg)) in
    let needed_duration := py_max 0 (ideal - duration current) in
    let optimal := py_min (py_min needed_duration max_a) (max_anticipation cfg) in
    py_max 0 optimal.

Module Anticipator.

(** [AnticipationAdjuster.estimate_benefit] *)
Definition estimate_benefit (subtitle : Subtitle) (anticipation : Q)
    (cfg : OptimizationConfig) : Q :=
  if Qle_bool anticipation 0 then 0
  else
    let ideal := py_max (min_duration cfg) (py_min (max_duration cfg) (ideal_duration subtitle cfg)) in
    let deficit_before := py_max 0 (ideal - duration subtitle) in
    let deficit_after := py_max 0 (ideal - (duration subtitle + anticipation)) in
    deficit_before - deficit_after.

End Anticipator.

(** The loop of [get_anticipation_candidates]: [previous] is
    [subtitles[i - 1]] of the input list; entries are
    [(i, optimal_anticipation, benefit)]. *)
Fixpoint candidates_loop (cfg : OptimizationConfig) (i : nat) (previous : option Subtitle)
    (subs : list Subtitle) : list (nat * Q * Q) :=
  match subs with
  | [] => []
  | subtitle :: rest =>
    let optimal := calculate_optimal_anticipation subtitle previous cfg in
    (if Qltb (1#10) optimal
     then [(i, optimal, Anticipator.estimate_benefit subtitle optimal cfg)] else [])
      ++ candidates_loop cfg (S i) (Some subtitle) rest
  end.

(** [list.sort(key=lambda x: x[2], reverse=True)]: Python's sort is
    stable, also in reverse, so the result is the insertion sort that puts
    an element after every element with a key at least as large. *)
Fixpoint insert_desc (x : nat * Q * Q) (l : list (nat * Q * Q)) : list (nat * Q * Q) :=
  match l with
  | [] => [x]
  | y :: r => if Qltb (snd y) (snd x) then x :: l else y :: insert_desc x r
  end.

Definition sort_desc (l : list (nat * Q * Q)) : list (nat * Q * Q) :=
  fold_left (fun acc x => insert_desc x acc) l [].

Definition get_anticipation_candidates (subs : list Subtitle) (cfg : OptimizationConfig)
    : list (nat * Q) :=
  map (fun e => (fst (fst e), snd (fst e))) (sort_desc (candidates_loop cfg 0 None subs)).

Record AnticipationPotential := mkPotential {
  pot_total_subtitles : nat;
  pot_anticipatable_count : nat;
  pot_anticipatable_percentage : Q;
  pot_total_potential : Q;
  pot_avg_potential : Q
}.

(** The loop of [analyze_anticipation_potential]: the count and the sum of
    the potentials above 0.1 s. *)
Fixpoint potential_loop (cfg : OptimizationConfig) (previous : option Subtitle)
    (subs : list Subtitle) (anticipatable : nat) (total_potential : Q) : nat * Q :=
  match subs with
  | [] => (anticipatable, total_potential)
  | subtitle :: rest =>
    let potential := calculate_max_anticipation subtitle previous cfg in
    if Qltb (1#10) potential
    then potential_loop cfg (Some subtitle) rest (S anticipatable) (total_potential + potential)
    else potential_loop cfg (Some subtitle) rest anticipatable total_potential
  end.

Definition analyze_anticipation_potential (subs : list Subtitle) (cfg : OptimizationConfig)
    : AnticipationPotential :=
  let total_subtitles := List.length subs in
  let (anticipatable, total_potential) := potential_loop cfg None subs 0 0 in
  mkPotential total_subtitles anticipatable
    (if (0 <? total_subtitles)%nat
     then inject_Z (Z.of_nat anticipatable) / inject_Z (Z.of_nat total_subtitles) * 100
     else 0)
    total_potential
    (if (0 <? anticipatable)%nat
     then total_potential / inject_Z (Z.of_nat anticipatable) else 0).

(** *** validator.py : helper methods *)

(** [detect_overlaps]: the loop [for i in range(len(subtitles) - 1)] with
    the two list reads of its body. *)
Definition detect_overlaps (subtitles : list Subtitle) : list (Z * Z) :=
  flat_map
    (fun i =>
       match nth_error subtitles i, nth_error subtitles (S i) with
       | Some current, Some next_subtitle =>
         if Qltb (start_time next_subtitle) (end_time current)
         then [(Z.of_nat i, Z.of_nat (S i))] else []
       | _, _ => []
       end)
    (seq 0 (List.length subtitles - 1)).

(** [fixed[i] = x]: list assignment at a position [i < len(fixed)]. *)
Fixpoint set_nth {A : Type} (l : list A) (n : nat) (x : A) : list A :=
  match l, n with
  | [], _ => []
  | _ :: r, O => x :: r
  | y :: r, S n' => y :: set_nth r n' x
  end.

(** One iteration of [for i, j in overlaps] in [fix_overlaps]. *)
Definition fix_overlaps_step (cfg : OptimizationConfig)
    (acc : list Subtitle * OptimizationStatistics) (p : Z * Z)
    : list Subtitle * OptimizationStatistics :=
  let (fixed, st) := acc in
  let (i, j) := p in
  if (i <? Z.of_nat (List.length fixed))%Z && (j <? Z.of_nat (List.length fixed))%Z then
    match nth_error fixed (Z.to_nat i), nth_error fixed (Z.to_nat j) with
    | Some current, Some next_subtitle =>
      let new_end := start_time next_subtitle - min_gap cfg in
      if Qltb (start_time current + min_duration cfg) new_end
      then (set_nth fixed (Z.to_nat i) (with_end_time current new_end), incr_gap_fixes st)
      else (fixed, st)
    | _, _ => (fixed, st)
    end
  else (fixed, st).

Definition fix_overlaps (subs : list Subtitle) (cfg : OptimizationConfig)
    (st : OptimizationStatistics) : list Subtitle * OptimizationStatistics :=
  fold_left (fix_overlaps_step cfg) (detect_overlaps subs) (subs, st).

Record ValidationReport := mkReport {
  total_subtitles : nat;
  valid_subtitles : nat;
  viol_min_duration : nat;
  viol_min_gap : nat;
  viol_overlaps : nat;
  viol_chronology : nat;
  viol_invalid_times : nat
}.

Definition b2n (b : bool) : nat := if b then 1%nat else 0%nat.

(** The body of the loop of [validate_sequence] for one cue and the cue
    before it in the input, if any. *)
Definition validate_sequence_step (cfg : OptimizationConfig) (subtitle : Subtitle)
    (prev_subtitle : option Subtitle) (r : ValidationReport) : ValidationReport :=
  let invalid_times := negb (validate subtitle) in
  let short := Qltb (duration subtitle) (min_duration cfg) in
  let '(chrono, overlap, small_gap) :=
    match prev_subtitle with
    | None => (false, false, false)
    | Some prev =>
      let g := start_time subtitle - end_time prev in
      (Qltb (start_time subtitle) (start_time prev),
       Qltb g (min_gap cfg) && Qltb g 0,
       Qltb g (min_gap cfg) && negb (Qltb g 0))
    end in
  let is_valid := negb (invalid_times || short || chrono || overlap || small_gap) in
  mkReport (total_subtitles r) (valid_subtitles r + b2n is_valid)
    (viol_min_duration r + b2n short) (viol_min_gap r + b2n small_gap)
    (viol_overlaps r + b2n overlap) (viol_chronology r + b2n chrono)
    (viol_invalid_times r + b2n invalid_times).

Fixpoint validate_sequence_loop (cfg : OptimizationConfig) (prev : option Subtitle)
    (subs : list Subtitle) (r : ValidationReport) : ValidationReport :=
  match subs with
  | [] => r
  | s :: rest => validate_sequence_loop cfg (Some s) rest (validate_sequence_step cfg s prev r)
  end.

Definition validate_sequence (subs : list Subtitle) (cfg : OptimizationConfig)
    : ValidationReport :=
  validate_sequence_loop cfg None subs (mkReport (List.length subs) 0 0 0 0 0 0).

(** *** statistics.py : derived properties *)

Definition avg_duration_change (s : OptimizationStatistics) : Q :=
  if Nat.eqb (duration_adjustments s) 0 then 0
  else total_duration_change s / inject_Z (Z.of_nat (duration_adjustments s)).

Definition avg_anticipation (s : OptimizationStatistics) : Q :=
  if Nat.eqb (anticipated_subtitles s) 0 then 0
  else total_anticipation s / inject_Z (Z.of_nat (anticipated_subtitles s)).

(** *** engine.py : result properties and analysis helpers *)

(** [OptimizationResult.success] *)
Definition success (r : OptimizationResult) : bool := (0 <? List.length (subtitles r))%nat.

(** The [subtitles_removed] entry of [improvement_summary]. *)
Definition subtitles_removed (r : OptimizationResult) : Z :=
  (Z.of_nat (original_count r) - Z.of_nat (final_count r))%Z.

(** Python's [min(xs)] and [max(xs)]: the first element, replaced by each
    later one that is strictly smaller (larger); [None] is the [ValueError]
    raised on an empty list. *)
Definition py_list_min (xs : list Q) : option Q :=
  match xs with [] => None | x :: r => Some (fold_left py_min r x) end.

Definition py_list_max (xs : list Q) : option Q :=
  match xs with [] => None | x :: r => Some (fold_left py_max r x) end.

(** [sum(xs)] *)
Definition py_sum (xs : list Q) : Q := fold_left Qplus xs 0.

(** [sum(1 for x in xs if p(x))] *)
Definition count_if {A : Type} (p : A -> bool) (xs : list A) : nat :=
  List.length (filter p xs).

Record SeqStats := mkSeqStats {
  ss_min : Q;
  ss_max : Q;
  ss_avg : Q
}.

(** The [min], [max] and [sum(...) / len(...)] entries every analysis
    computes; [None] when [min] raises on an empty list. *)
Definition seq_stats (xs : list Q) : option SeqStats :=
  match py_list_min xs, py_list_max xs with
  | Some mn, Some mx => Some (mkSeqStats mn mx (py_sum xs / inject_Z (Z.of_nat (List.length xs))))
  | _, _ => None
  end.

Record DurationAnalysis := mkDurationAnalysis {
  dur_stats : SeqStats;
  dur_below_min : nat;
  dur_above_max : nat;
  dur_total_duration : Q
}.

Definition _analyze_durations (subs : list Subtitle) (cfg : OptimizationConfig)
    : option DurationAnalysis :=
  let durations := map duration subs in
  match seq_stats durations with
  | None => None
  | Some s =>
    Some (mkDurationAnalysis s
            (count_if (fun d => Qltb d (min_duration cfg)) durations)
            (count_if (fun d => Qltb (max_duration cfg) d) durations)
            (py_sum durations))
  end.

Record GapAnalysis := mkGapAnalysis {
  gap_stats : SeqStats;
  gap_overlaps : nat;
  gap_below_min_gap : nat;
  gap_negative_gaps : nat
}.

(** The [gaps] list and the [overlaps] counter of [_analyze_gaps]. *)
Fixpoint gaps_loop (subs : list Subtitle) : list Q * nat :=
  match subs with
  | cur :: ((nxt :: _) as rest) =>
    let g := start_time nxt - end_time cur in
    let (gs, ov) := gaps_loop rest in
    (g :: gs, if Qltb g 0 then S ov else ov)
  | _ => ([], 0%nat)
  end.

(** [inl tt] is the [{'error': ...}] dictionary returned for fewer than two
    cues. *)
Definition _analyze_gaps (subs : list Subtitle) (cfg : OptimizationConfig)
    : unit + option GapAnalysis :=
  if (List.length subs <? 2)%nat then inl tt
  else
    let (gaps, overlaps) := gaps_loop subs in
    inr (match seq_stats gaps with
         | None => None
         | Some s =>
           Some (mkGapAnalysis s overlaps
                   (count_if (fun g => Qle_bool 0 g && Qltb g (min_gap cfg)) gaps)
                   (count_if (fun g => Qltb g 0) gaps))
         end).

Record SpeedAnalysis := mkSpeedAnalysis {
  speed_stats : SeqStats;
  speed_target : Q;
  speed_above_target : nat;
  speed_below_target : nat
}.

Definition reading_speeds (subs : list Subtitle) : list Q :=
  map (fun s => inject_Z (Z.of_nat (char_count s)) / duration s)
      (filter (fun s => Qltb 0 (duration s)) subs).

Definition _analyze_reading_speeds (subs : list Subtitle) (cfg : OptimizationConfig)
    : unit + SpeedAnalysis :=
  let speeds := reading_speeds subs in
  match seq_stats speeds with
  | None => inl tt
  | Some s =>
    inr (mkSpeedAnalysis s (chars_per_sec cfg)
           (count_if (fun v => Qltb (chars_per_sec cfg) v) speeds)
           (count_if (fun v => Qltb v (chars_per_sec cfg)) speeds))
  end.

(** *** engine.py : preview_optimization *)

(** [range(0, n, step)] for [step >= 1]. *)
Definition py_range_step (n step : nat) : list nat :=
  map (fun k => (k * step)%nat) (seq 0 ((n + step - 1) / step)).

(** [l[:k]] *)
Definition py_slice_upto {A : Type} (l : list A) (k : Z) : list A :=
  if (0 <=? k)%Z then firstn (Z.to_nat k) l
  else firstn (List.length l - Z.to_nat (- k)) l.

(** The sample of [preview_optimization]; [None] is the
    [ZeroDivisionError] of [len(subtitles) // sample_size]. *)
Definition sample_indices (n : nat) (sample_size : Z) : option (list nat) :=
  if (sample_size =? 0)%Z then None
  else
    let step := Z.to_nat (Z.max 1 (Z.of_nat n / sample_size)) in
    Some (py_slice_upto (py_range_step n step) sample_size).

(** A preview entry: the index, the original cue and the cue read at
    [optimized_context[context_i]] (the dictionary entries are computed from
    these two cues). *)
Definition preview_entry (subs : list Subtitle) (cfg : OptimizationConfig) (i : nat)
    : option (nat * Subtitle * Subtitle) :=
  match nth_error subs i with
  | None => None
  | Some original =>
    let context_start := (i - 1)%nat in
    let context_end := Nat.min (List.length subs) (i + 2) in
    let context := firstn (context_end - context_start) (skipn context_start subs) in
    let context_i := (i - context_start)%nat in
    let optimized_context := fst (_apply_optimization_pipeline context cfg (new_stats 0)) in
    match nth_error optimized_context context_i with
    | Some optimized => Some (i, original, optimized)
    | None => None
    end
  end.

Inductive PreviewResult :=
| PreviewError
| Preview (sample_size total_subtitles : nat) (previews : list (nat * Subtitle * Subtitle)).

(** [None] is the [ZeroDivisionError]. *)
Definition preview_optimization (subs : list Subtitle) (cfg : OptimizationConfig)
    (sample_size : Z) : option PreviewResult :=
  match subs with
  | [] => Some PreviewError
  | _ =>
    match sample_indices (List.length subs) sample_size with
    | None => None
    | Some idx =>
      let previews := flat_map (fun i => match preview_entry subs cfg i with
                                         | Some e => [e] | None => [] end) idx in
      Some (Preview (List.length previews) (List.length subs) previews)
    end
  end.

(** *** Predicates and helper functions for the further properties *)

(** The order [sort(key=benefit, reverse=True)] leaves between neighbours. *)
Definition desc_key (x y : nat * Q * Q) : Prop := snd y <= snd x.

(** [fix_overlaps] cue by cue: each cue compared with the input cue after it. *)
Fixpoint fix_overlaps_spec (cfg : OptimizationConfig) (l : list Subtitle) : list Subtitle :=
  match l with
  | c :: ((n :: _) as rest) =>
    (if Qltb (start_time n) (end_time c) &&
        Qltb (start_time c + min_duration cfg) (start_time n - min_gap cfg)
     then with_end_time c (start_time n - min_gap cfg) else c)
      :: fix_overlaps_spec cfg rest
  | _ => l
  end.

(** The body of the comprehension of [detect_overlaps] at position [i]. *)
Definition overlap_body (L : list Subtitle) (i : nat) : list (Z * Z) :=
  match nth_error L i, nth_error L (S i) with
  | Some current, Some next_subtitle =>
    if Qltb (start_time next_subtitle) (end_time current)
    then [(Z.of_nat i, Z.of_nat (S i))] else []
  | _, _ => []
  end.

(** The bookkeeping of [OptimizationStatistics]: counters, totals and lists
    of recorded amounts agree. *)
Definition stats_consistent (cfg : OptimizationConfig) (st : OptimizationStatistics) : Prop :=
  duration_adjustments st = List.length (duration_changes st) /\
  total_duration_change st == py_sum (duration_changes st) /\
  Forall (fun c => 1#100 < c) (duration_changes st) /\
  rebalanced_pairs st = List.length (rebalancing_transfers st) /\
  total_time_transferred st == py_sum (rebalancing_transfers st) /\
  Forall (fun t => 1#100 < t) (rebalancing_transfers st) /\
  anticipated_subtitles st = List.length (anticipation_amounts st) /\
  total_anticipation st == py_sum (anticipation_amounts st) /\
  Forall (fun a => 1#100 < a <= max_anticipation cfg) (anticipation_amounts st).

(** A cue whose 40 characters want two seconds, followed closely by a
    second cue. *)
Definition ex_anticip : list Subtitle :=
  [sub 0 10 11 "0123456789012345678901234567890123456789"; sub 1 (23#2) 13 "B"].

(** * Evaluations on the concrete inputs *)

Example char_count_strips_markup :
  char_count (sub 0 0 1 "  <i>ab</i>{\an8}c  ") = 3%nat.
Proof. reflexivity. Qed.

Example default_config_valid : config_valid default_config = true.
Proof. reflexivity. Qed.

Example cfg_wide_short_valid : config_valid cfg_wide_short = true.
Proof. reflexivity. Qed.

(** The validator pushes the registered pair (1, 2) apart once cue 0 has
    been removed: cue "B" starts at 4.05 instead of 3.8. *)
Example removed_first_shifts_registered_pair :
  reg_mem (1, 2)%Z (_detect_original_overlaps ex_removed_first) = true /\
  timings (pipeline ex_removed_first default_config) = [(2, 4); (81#20, 25#4)].
Proof. split; vm_compute; reflexivity. Qed.

(** * Structural lemmas *)

Lemma detect_overlaps_from_shape : forall subs j p,
  In p (detect_overlaps_from j subs) -> snd p = (fst p + 1)%Z.
Proof.
  induction subs as [|a subs IH]; intros j p Hin; [contradiction|].
  destruct subs as [|b subs']; [contradiction|].
  cbn [detect_overlaps_from] in Hin.
  apply in_app_or in Hin as [Hin|Hin].
  - destruct (Qltb (start_time b) (end_time a)); simpl in Hin;
      [destruct Hin as [<-|[]]; reflexivity | contradiction].
  - exact (IH _ _ Hin).
Qed.

Lemma registry_shape : forall subs p,
  In p (_detect_original_overlaps subs) -> snd p = (fst p + 1)%Z.
Proof. intros subs p. apply detect_overlaps_from_shape. Qed.

Lemma reg_mem_In : forall p r, reg_mem p r = true -> In p r.
Proof.
  intros [a b] r H. unfold reg_mem in H. apply existsb_exists in H.
  destruct H as [[c d] [Hin Heq]]. simpl in Heq.
  apply andb_prop in Heq as [H1 H2].
  apply Z.eqb_eq in H1. apply Z.eqb_eq in H2. subst. exact Hin.
Qed.

Lemma allowed_lookup_true : forall r k i,
  allowed_lookup r k i = true -> reg_mem ((Z.of_nat k - 1)%Z, i) r = true.
Proof.
  intros r k i. unfold allowed_lookup.
  destruct (Z.of_nat k - 1 >=? 0)%Z; [auto | discriminate].
Qed.

(** * Claims *)

(** ** C1 *)

(** C1: On [ex_overlap] the pair (0, 1) is in the overlap registry, yet
    the duration pass of the pipeline, called without the registry, bounds
    cue 0 by [next.start - min_gap - start] and leaves it at [0, 1]; with the
    registry passed, the same pass extends it to its 3 s target, up to the
    next cue's end. *)
Theorem C1_pipeline_duration_pass_ignores_registry :
  reg_mem (0, 1)%Z (_detect_original_overlaps ex_overlap) = true /\
  timings (fst (phase1 ex_overlap default_config (new_stats 0)))
    = [(0, 1); (1#2, 5)] /\
  timings (fst (duration_process ex_overlap default_config (new_stats 0)
                  (Some (_detect_original_overlaps ex_overlap))))
    = [(0, 3); (1#2, 5)].
Proof. vm_compute. repeat split. Qed.

(** ** C5 *)

(** C5: Counterexample: on scenario S4 the pipeline's second cue does not
    start at 11.5. *)
Lemma C5_counterexample :
  config_valid default_config = true /\
  ~ (start_time (nth 1 (pipeline ex_s4 default_config) (sub 0 0 0 "")) == 23#2).
Proof.
  split; [reflexivity|]. vm_compute. intro H. discriminate H.
Qed.

(** C5: Amended: on scenario S4 the pipeline outputs [10, 11] and
    [12, 13]; the second cue is extended by the duration pass but not
    anticipated, since at 1 s it already reaches its reading-speed ideal
    (0.05 s) and [min_duration], so [is_beneficial] is false. *)
Theorem C5_s4_output :
  timings (pipeline ex_s4 default_config) = [(10, 11); (12, 13)] /\
  is_beneficial (sub 1 12 13 "B") (1#2) default_config = false.
Proof. vm_compute. split; reflexivity. Qed.

(** ** C9 *)

(** C9: On an empty input [optimize] returns an empty list, zero counts
    and statistics whose counters, magnitudes and timing are all zero. *)
Theorem C9_optimize_empty : forall cfg track t0 t1,
  let r := optimize [] cfg track t0 t1 in
  let s := statistics r in
  subtitles r = [] /\ original_count r = 0%nat /\ final_count r = 0%nat /\
  original_subtitle_count s = 0%nat /\ final_subtitle_count s = 0%nat /\
  merged_subtitles s = 0%nat /\ duration_adjustments s = 0%nat /\
  total_duration_change s = 0 /\ duration_changes s = [] /\
  rebalanced_pairs s = 0%nat /\ total_time_transferred s = 0 /\
  rebalancing_transfers s = [] /\ anticipated_subtitles s = 0%nat /\
  total_anticipation s = 0 /\ anticipation_amounts s = [] /\
  min_duration_fixes s = 0%nat /\ gap_fixes s = 0%nat /\
  chronology_fixes s = 0%nat /\ invalid_removed s = 0%nat /\
  processing_time s = 0 /\ stats_start_time s = None.
Proof. intros. repeat split. Qed.

(** ** C10 *)

(** C10: In the validation pass, once fewer cues have been emitted than
    positions consumed ([k < i], i.e. some earlier cue was removed), the
    lookup [(k - 1, i)] never matches the registry of the input, whose pairs
    all have the form [(j, j + 1)]; so the cue at position [i] always goes
    through gap repair. *)
Theorem C10_lookup_misses_after_removal : forall (input : list Subtitle) (k : nat) (i : Z),
  (Z.of_nat k < i)%Z ->
  allowed_lookup (_detect_original_overlaps input) k i = false.
Proof.
  intros input k i Hlt.
  destruct (allowed_lookup _ k i) eqn:E; [|reflexivity].
  apply allowed_lookup_true, reg_mem_In, registry_shape in E.
  simpl in E. lia.
Qed.

Lemma C10_witness :
  (Z.of_nat 1 < 2)%Z /\
  allowed_lookup (_detect_original_overlaps ex_removed_first) 1 2 = false.
Proof.
  split; [lia|]. apply (C10_lookup_misses_after_removal ex_removed_first 1 2). lia.
Defined.

(** ** C2 *)

(** C2: Counterexample: [ex_unsorted_out] is sorted by start, yet the
    pipeline outputs starts 0, 1.05, 1.02.  Cue 1 is pushed to 1.05 by gap
    repair; cue 2 overlaps cue 1 in the input, so it is exempt from gap
    repair, fails the chronology check against 1.05 and is emitted with its
    pre-validation timing. *)
Lemma C2_counterexample :
  config_valid default_config = true /\
  ordered_by_start ex_unsorted_out /\
  timings (pipeline ex_unsorted_out default_config)
    = [(0, 1); (21#20, 41#20); (51#50, 3)] /\
  ~ ordered_by_start (pipeline ex_unsorted_out default_config).
Proof.
  split; [reflexivity|]. split; [vm_compute; repeat split; discriminate|].
  split; [vm_compute; reflexivity|].
  vm_compute. intros [_ [H _]]. apply H. reflexivity.
Qed.

(** ** C3 *)

(** C3: Counterexample: the pair of [ex_big_overlap] is not in the registry,
    yet the output gap is -0.8 s: the validator lifts cue 0 to [0, 1] and
    then leaves cue 1 at 0.2, since a gap below -0.5 s is kept as an
    intentional overlap. *)
Lemma C3_counterexample :
  config_valid default_config = true /\
  reg_mem (0, 1)%Z (_detect_original_overlaps ex_big_overlap) = false /\
  timings (pipeline ex_big_overlap default_config) = [(0, 1); (1#5, 6#5)] /\
  gap (nth 0 (pipeline ex_big_overlap default_config) (sub 0 0 0 ""))
      (nth 1 (pipeline ex_big_overlap default_config) (sub 0 0 0 "")) == -(4#5).
Proof. vm_compute. repeat split. Qed.

(** ** C6 *)


(** * Lemmas on the boolean comparisons *)

Lemma Qltb_true : forall a b, Qltb a b = true <-> a < b.
Proof.
  intros a b. unfold Qltb. rewrite negb_true_iff. split; intro H.
  - apply Qnot_le_lt. intro H'. apply Qle_bool_iff in H'. congruence.
  - destruct (Qle_bool b a) eqn:E; [|reflexivity].
    apply Qle_bool_iff in E. exfalso. apply (Qlt_not_le a b); assumption.
Qed.

Lemma Qltb_false : forall a b, Qltb a b = false <-> b <= a.
Proof.
  intros a b. unfold Qltb. rewrite negb_false_iff. apply Qle_bool_iff.
Qed.

Lemma Qle_bool_false : forall a b, Qle_bool a b = false <-> b < a.
Proof.
  intros a b. split; intro H.
  - apply Qnot_le_lt. intro H'. apply Qle_bool_iff in H'. congruence.
  - destruct (Qle_bool a b) eqn:E; [|reflexivity].
    apply Qle_bool_iff in E. exfalso. apply (Qlt_not_le b a); assumption.
Qed.

(** Turn every boolean comparison hypothesis into its [Q] relation. *)
Ltac qbool :=
  repeat match goal with
  | H : Qltb _ _ = true |- _ => apply Qltb_true in H
  | H : Qltb _ _ = false |- _ => apply Qltb_false in H
  | H : Qle_bool _ _ = true |- _ => apply Qle_bool_iff in H
  | H : Qle_bool _ _ = false |- _ => apply Qle_bool_false in H
  end.

(** Case on the first [if] of the goal, recording the test. *)
Ltac split_if :=
  match goal with
  | |- context [if ?c then _ else _] => let E := fresh "E" in destruct c eqn:E
  end.

Lemma py_max_ge_r : forall a b, b <= py_max a b.
Proof.
  intros a b. unfold py_max. destruct (Qltb a b) eqn:E; qbool; lra.
Qed.

Lemma py_min_le_r : forall a b, py_min a b <= b.
Proof.
  intros a b. unfold py_min. destruct (Qltb b a) eqn:E; qbool; lra.
Qed.

Lemma py_min_le_l : forall a b, py_min a b <= a.
Proof.
  intros a b. unfold py_min. destruct (Qltb b a) eqn:E; qbool; lra.
Qed.

Lemma config_valid_bounds : forall cfg, config_valid cfg = true ->
  0 < min_duration cfg /\ 0 < min_gap cfg /\ 0 <= max_anticipation cfg.
Proof.
  intros cfg H. unfold config_valid, in_range in H.
  repeat rewrite andb_true_iff in H. qbool.
  repeat match goal with H : _ /\ _ |- _ => destruct H end.
  qbool. repeat split; lra.
Qed.

(** * The duration pass *)

Lemma adjust_duration_frame : forall c n cfg b,
  let c' := adjust_duration c n cfg b in
  start_time c' = start_time c /\ text c' = text c /\ index c' = index c /\
  metadata c' = metadata c /\ end_time c <= end_time c'.
Proof.
  intros c n cfg b. simpl. repeat split.
  set (nd := match _ with Some m => _ | None => _ end).
  assert (Hge : duration c <= py_max nd (duration c)) by apply py_max_ge_r.
  unfold duration in *. split_if; simpl; lra.
Qed.

Lemma duration_loop_frame : forall cfg allowed subs i st,
  Forall2 (fun c c' => start_time c' = start_time c /\ text c' = text c /\
             index c' = index c /\ metadata c' = metadata c /\
             end_time c <= end_time c')
          subs (fst (duration_loop cfg allowed i subs st)).
Proof.
  intros cfg allowed subs. induction subs as [|c rest IH]; intros i st; simpl.
  - constructor.
  - match goal with |- context [duration_loop cfg allowed ?j rest ?s] =>
      specialize (IH j s); destruct (duration_loop cfg allowed j rest s) end.
    simpl. constructor; [apply adjust_duration_frame | exact IH].
Qed.

Lemma duration_process_frame : forall subs cfg st ov,
  Forall2 (fun c c' => start_time c' = start_time c /\ text c' = text c /\
             index c' = index c /\ metadata c' = metadata c /\
             end_time c <= end_time c')
          subs (fst (duration_process subs cfg st ov)).
Proof.
  intros subs cfg st ov. unfold duration_process. destruct subs as [|c rest].
  - constructor.
  - apply duration_loop_frame.
Qed.

(** ** C8 *)

(** C8: The duration pass returns a list of the same length in which every
    cue keeps its position, start, text, index and metadata, and its end is
    never earlier than before. *)
Theorem C8_duration_pass_frame : forall subs cfg st allowed_overlaps,
  let out := fst (duration_process subs cfg st allowed_overlaps) in
  List.length out = List.length subs /\
  Forall2 (fun c c' => start_time c' = start_time c /\ text c' = text c /\
             index c' = index c /\ metadata c' = metadata c /\
             end_time c <= end_time c')
          subs out.
Proof.
  intros subs cfg st ov out.
  pose proof (duration_process_frame subs cfg st ov) as H.
  split; [symmetry; eapply Forall2_length; exact H | exact H].
Qed.

(** * Texts through the passes *)

Lemma duration_process_texts : forall subs cfg st ov,
  map text (fst (duration_process subs cfg st ov)) = map text subs.
Proof.
  intros subs cfg st ov.
  pose proof (duration_process_frame subs cfg st ov) as H.
  induction H as [|c c' l l' [_ [Ht _]] _ IH]; simpl; [reflexivity|].
  rewrite Ht, IH. reflexivity.
Qed.

Lemma rebalance_pair_texts : forall c n cfg nc nn t,
  rebalance_pair c n cfg = (nc, nn, t) -> text nc = text c /\ text nn = text n.
Proof.
  intros c n cfg nc nn t H. unfold rebalance_pair in H.
  revert H. repeat split_if; intro H; injection H as <- <- _; auto.
Qed.

Lemma rebalance_loop_texts : forall cfg rest cur st,
  map text (fst (rebalance_loop cfg cur rest st)) = text cur :: map text rest.
Proof.
  intros cfg rest. induction rest as [|n rest IH]; intros cur st; simpl; [reflexivity|].
  destruct (rebalance_pair cur n cfg) as [[nc nn] t] eqn:E.
  apply rebalance_pair_texts in E as [E1 E2].
  split_if.
  - specialize (IH nn (add_rebalancing_transfer t st)).
    destruct (rebalance_loop _ _ _ _). simpl in *. rewrite E1, IH, E2. reflexivity.
  - specialize (IH n st). destruct (rebalance_loop _ _ _ _). simpl in *.
    rewrite IH. reflexivity.
Qed.

Lemma rebalance_process_texts : forall subs cfg st,
  map text (fst (rebalance_process subs cfg st)) = map text subs.
Proof.
  intros [|c [|n rest]] cfg st; try reflexivity.
  unfold rebalance_process. apply rebalance_loop_texts.
Qed.



Lemma apply_anticipation_text : forall c p cfg,
  text (fst (apply_anticipation c p cfg)) = text c.
Proof.
  intros c p cfg. unfold apply_anticipation. repeat split_if; reflexivity.
Qed.

Lemma anticipation_loop_texts : forall cfg subs acc st,
  map text (fst (anticipation_loop cfg subs acc st)) = map text (rev acc) ++ map text subs.
Proof.
  intros cfg subs. induction subs as [|c rest IH]; intros acc st; simpl.
  - rewrite app_nil_r. reflexivity.
  - pose proof (apply_anticipation_text c (hd_error acc) cfg) as Ht.
    destruct (apply_anticipation c (hd_error acc) cfg) as [c' off]. simpl in Ht.
    rewrite IH. simpl. rewrite map_app, <- app_assoc. simpl. rewrite Ht. reflexivity.
Qed.

Lemma anticipation_process_texts : forall subs cfg st,
  map text (fst (anticipation_process subs cfg st)) = map text subs.
Proof.
  intros [|c rest] cfg st; [reflexivity|].
  unfold anticipation_process. rewrite anticipation_loop_texts. reflexivity.
Qed.

(** ** C6 *)



(** * Texts through the validation pass *)

Lemma subseq_nil_l : forall {A} (l : list A), subseq [] l.
Proof. intros A l. induction l; constructor; assumption. Qed.

Lemma apply_all_fixes_text : forall c p cfg st b,
  text (fst (apply_all_fixes c p cfg st b)) = text c.
Proof.
  intros c p cfg st b. unfold apply_all_fixes, fix_minimum_duration, fix_minimum_gap.
  repeat (split_if || destruct p); reflexivity.
Qed.

Lemma validate_loop_texts : forall cfg allowed subs i acc st,
  exists l, fst (validate_loop cfg allowed i subs acc st) = rev acc ++ l /\
            subseq (map text l) (map text subs).
Proof.
  intros cfg allowed subs. induction subs as [|c rest IH]; intros i acc st; simpl.
  - exists []. rewrite app_nil_r. split; [reflexivity | constructor].
  - pose proof (apply_all_fixes_text c (hd_error acc) cfg st
                  (allowed_lookup allowed (List.length acc) i)) as Ht.
    destruct (apply_all_fixes _ _ _ _ _) as [x st1]. simpl in Ht.
    split_if.
    + destruct (IH (i + 1)%Z (x :: acc) st1) as [l [Hl Hs]].
      exists (x :: l). rewrite Hl. simpl. rewrite <- app_assoc. split; [reflexivity|].
      simpl. rewrite Ht. constructor. exact Hs.
    + destruct (IH (i + 1)%Z acc (incr_invalid_removed st1)) as [l [Hl Hs]].
      exists l. split; [exact Hl | constructor; exact Hs].
Qed.

(** ** C4 *)

(** C4: The texts of the pipeline's output are a subsequence of the texts of
    its input: no text is changed, duplicated or reordered. *)
Theorem C4_texts_subsequence : forall subs cfg,
  subseq (map text (pipeline subs cfg)) (map text subs).
Proof.
  intros subs cfg. unfold pipeline, _apply_optimization_pipeline, phase1.
  pose proof (duration_process_texts subs cfg (new_stats 0) None) as H1.
  destruct (duration_process _ _ _ _) as [v1 st1]. simpl in H1.
  pose proof (rebalance_process_texts v1 cfg st1) as H2.
  destruct (rebalance_process _ _ _) as [v2 st2]. simpl in H2.
  pose proof (anticipation_process_texts v2 cfg st2) as H3.
  destruct (anticipation_process _ _ _) as [v3 st3]. simpl in H3.
  destruct v3 as [|c rest]; simpl; [apply subseq_nil_l|].
  unfold validate_and_fix.
  destruct (validate_loop_texts cfg (_detect_original_overlaps subs) (c :: rest) 0%Z [] st3)
    as [l [Hl Hs]].
  rewrite Hl. simpl. rewrite <- H1, <- H2, <- H3. exact Hs.
Qed.

(** ** C7 *)

(** C7: [rebalance_pair] changes a pair only when the current cue is shorter
    than [short_threshold] and the next one longer than [long_threshold]; a
    transfer [t > 0] is [min(short_threshold - current.duration,
    next.duration - long_threshold)], moves the current end to
    [current.end + t] and the next start to [new_current.end + min_gap]; and
    the pair is returned unchanged (with [t = 0]) whenever the new next start
    reaches [next.end], the new next duration is below [min_duration] or
    below the current cue's original duration, the new gap is below
    [min_gap], or either new cue has [end <= start]. *)
Theorem C7_rebalance_pair_contract : forall cfg c n,
  (~ (duration c < short_threshold cfg /\ long_threshold cfg < duration n) ->
     rebalance_pair c n cfg = (c, n, 0)) /\
  (forall nc nn t, rebalance_pair c n cfg = (nc, nn, t) -> 0 < t ->
     duration c < short_threshold cfg /\ long_threshold cfg < duration n /\
     t = py_min (short_threshold cfg - duration c) (duration n - long_threshold cfg) /\
     nc = with_end_time c (end_time c + t) /\
     nn = with_start_time n (end_time nc + min_gap cfg)) /\
  (let t := py_min (short_threshold cfg - duration c) (duration n - long_threshold cfg) in
   let nc := with_end_time c (end_time c + t) in
   let nn := with_start_time n (end_time nc + min_gap cfg) in
   end_time n <= start_time nn \/ duration nn < min_duration cfg \/
   duration nn < duration c \/ start_time nn - end_time nc < min_gap cfg \/
   end_time nc <= start_time nc \/ end_time nn <= start_time nn ->
   rebalance_pair c n cfg = (c, n, 0)).
Proof.
  intros cfg c n. split; [|split].
  - intro Hn. unfold rebalance_pair, should_rebalance.
    split_if; [reflexivity|]. exfalso. apply Hn.
    apply negb_false_iff, andb_prop in E as [E1 E2]. qbool. split; assumption.
  - intros nc nn t H Ht. unfold rebalance_pair, should_rebalance in H. revert H.
    repeat split_if; intro H; injection H as <- <- <-;
      try (exfalso; apply (Qlt_irrefl 0); exact Ht).
    apply negb_false_iff, andb_prop in E as [Hs1 Hs2]. qbool.
    repeat split; assumption.
  - simpl. intro Hd. unfold rebalance_pair, validate_rebalancing, should_rebalance.
    repeat split_if; try reflexivity; try discriminate.
    all: exfalso; qbool; unfold duration in *; simpl in *.
    all: repeat match goal with H : context [if _ then _ else _] |- _ =>
                  revert H; repeat split_if; intros ?; try discriminate end.
    all: qbool; destruct Hd as [H|[H|[H|[H|[H|H]]]]]; lra.
Qed.

Lemma C7_witness :
  duration (sub 0 0 (1#2) "A") < short_threshold cfg_wide_short /\
  long_threshold cfg_wide_short < duration (sub 1 5 10 "B").
Proof.
  destruct (C7_rebalance_pair_contract cfg_wide_short (sub 0 0 (1#2) "A") (sub 1 5 10 "B"))
    as [_ [H _]].
  edestruct H as [H1 [H2 _]]; [reflexivity | vm_compute; reflexivity |].
  split; [exact H1 | exact H2].
Defined.

(** * The validation pass *)

Lemma validate_times : forall s, validate s = true -> 0 <= start_time s < end_time s.
Proof.
  intros s H. unfold validate in H. revert H.
  repeat split_if; intro H; try discriminate. qbool. split; assumption.
Qed.

Lemma has_valid_time_range_intro : forall s,
  0 <= start_time s -> start_time s < end_time s -> has_valid_time_range s = true.
Proof.
  intros s H1 H2. unfold has_valid_time_range, duration.
  rewrite (proj2 (Qle_bool_iff _ _) H1), (proj2 (Qltb_true _ _) H2).
  simpl. apply Qltb_true. lra.
Qed.

Lemma fix_minimum_duration_props : forall c cfg st,
  let (x, st') := fix_minimum_duration c cfg st in
  start_time x = start_time c /\ text x = text c /\
  min_duration cfg <= duration x /\ chronology_fixes st' = chronology_fixes st.
Proof.
  intros c cfg st. unfold fix_minimum_duration, duration.
  split_if; qbool; simpl.
  - repeat split; assumption.
  - repeat split; [lra | destruct st; reflexivity].
Qed.

Lemma fix_minimum_gap_props : forall c p cfg st,
  let (x, st') := fix_minimum_gap c (Some p) cfg st in
  chronology_fixes st' = chronology_fixes st /\ duration x == duration c /\
  ((min_gap cfg <= gap p c /\ x = c) \/ (gap p c < -(1#2) /\ x = c) \/
   start_time x == end_time p + min_gap cfg).
Proof.
  intros c p cfg st. unfold fix_minimum_gap, gap.
  repeat split_if; qbool; simpl.
  - split; [reflexivity | split; [reflexivity | left; split; [assumption | reflexivity]]].
  - split; [reflexivity | split; [reflexivity | right; left; split; [assumption | reflexivity]]].
  - split; [destruct st; reflexivity|]. unfold duration. simpl.
    split; [ring | right; right; reflexivity].
Qed.

Lemma stats_chronology_updates : forall st,
  chronology_fixes (incr_invalid_removed st) = chronology_fixes st /\
  chronology_fixes (incr_chronology_fixes st) = S (chronology_fixes st).
Proof. intros []. split; reflexivity. Qed.

(** What [apply_all_fixes] guarantees against the previous emitted cue:
    the chronology counter never decreases, and when it is left unchanged
    the result does not start before the previous cue. *)
Lemma apply_all_fixes_chronology : forall cur prev cfg st b,
  0 < min_duration cfg ->
  (forall p, prev = Some p -> validate p = true) ->
  let (x, st') := apply_all_fixes cur prev cfg st b in
  (chronology_fixes st <= chronology_fixes st')%nat /\
  (chronology_fixes st' = chronology_fixes st ->
   forall p, prev = Some p -> start_time p <= start_time x).
Proof.
  intros cur prev cfg st b Hmin Hprev. unfold apply_all_fixes.
  pose proof (fix_minimum_duration_props cur cfg st) as Hd.
  destruct (fix_minimum_duration cur cfg st) as [f1 st1].
  destruct Hd as [Hs1 [_ [Hdur1 Hc1]]].
  assert (H2 : let (f2, st2) := (if negb b then fix_minimum_gap f1 prev cfg st1
                                 else (f1, st1)) in
               chronology_fixes st2 = chronology_fixes st1 /\ duration f2 == duration f1).
  { destruct b; simpl; [split; reflexivity|].
    destruct prev as [p|]; [|split; reflexivity].
    pose proof (fix_minimum_gap_props f1 p cfg st1) as Hg.
    destruct (fix_minimum_gap f1 (Some p) cfg st1). tauto. }
  destruct (if negb b then _ else _) as [f2 st2].
  destruct H2 as [Hc2 Hdur2].
  destruct (stats_chronology_updates st2) as [_ Hinc].
  split_if.
  - rewrite Hinc. split; [lia | intro H; lia].
  - assert (Hle : forall p, prev = Some p -> start_time p <= start_time f2).
    { intros p Hp. subst prev. simpl in E.
      apply negb_false_iff, Qle_bool_iff in E. exact E. }
    split_if; (split; [lia|]); intros _ p Hp; [|exact (Hle p Hp)].
    pose proof (validate_times p (Hprev p Hp)) as [Hp0 Hp1].
    specialize (Hle p Hp).
    exfalso. rewrite has_valid_time_range_intro in E0; [discriminate | lra |].
    unfold duration in *. lra.
Qed.

Lemma chain_snoc : forall {A} (R : A -> A -> Prop) l y x,
  chain R (l ++ [y]) -> R y x -> chain R (l ++ [y; x]).
Proof.
  intros A R l. induction l as [|a l IH]; intros y x H Hyx; simpl in *.
  - split; [exact Hyx | exact I].
  - destruct l as [|b l]; simpl in *.
    + destruct H as [Hay _]. split; [exact Hay | split; [exact Hyx | exact I]].
    + destruct H as [Hab H]. split; [exact Hab | exact (IH y x H Hyx)].
Qed.

Lemma chain_rev_cons : forall {A} (R : A -> A -> Prop) acc x,
  chain R (rev acc) -> (forall y, hd_error acc = Some y -> R y x) ->
  chain R (rev (x :: acc)).
Proof.
  intros A R [|y acc] x H Hx; simpl in *; [exact I|].
  rewrite <- app_assoc. simpl. apply chain_snoc; [exact H | apply Hx; reflexivity].
Qed.

Lemma apply_all_fixes_chrono_mono : forall cur prev cfg st b,
  (chronology_fixes st <= chronology_fixes (snd (apply_all_fixes cur prev cfg st b)))%nat.
Proof.
  intros cur prev cfg st b. unfold apply_all_fixes.
  pose proof (fix_minimum_duration_props cur cfg st) as Hd.
  destruct (fix_minimum_duration cur cfg st) as [f1 st1].
  destruct Hd as [_ [_ [_ Hc1]]].
  assert (H2 : chronology_fixes (snd (if negb b then fix_minimum_gap f1 prev cfg st1
                                      else (f1, st1))) = chronology_fixes st1).
  { destruct b; simpl; [reflexivity|].
    destruct prev as [p|]; [|reflexivity].
    pose proof (fix_minimum_gap_props f1 p cfg st1) as Hg.
    destruct (fix_minimum_gap f1 (Some p) cfg st1). simpl. tauto. }
  destruct (if negb b then _ else _) as [f2 st2]. simpl in H2.
  destruct (stats_chronology_updates st2) as [_ Hinc].
  repeat split_if; simpl; try rewrite Hinc; lia.
Qed.

Lemma validate_loop_chrono_mono : forall cfg allowed subs i acc st,
  (chronology_fixes st <= chronology_fixes (snd (validate_loop cfg allowed i subs acc st)))%nat.
Proof.
  intros cfg allowed subs. induction subs as [|cur rest IH]; intros i acc st; simpl; [lia|].
  pose proof (apply_all_fixes_chrono_mono cur (hd_error acc) cfg st
                (allowed_lookup allowed (List.length acc) i)) as H1.
  destruct (apply_all_fixes _ _ _ _ _) as [x st1]. simpl in H1.
  destruct (stats_chronology_updates st1) as [Hrem _].
  split_if.
  - specialize (IH (i + 1)%Z (x :: acc) st1). lia.
  - specialize (IH (i + 1)%Z acc (incr_invalid_removed st1)). lia.
Qed.

Lemma validate_loop_ordered : forall cfg allowed subs i acc st,
  0 < min_duration cfg ->
  Forall (fun s => validate s = true) acc ->
  ordered_by_start (rev acc) ->
  chronology_fixes (snd (validate_loop cfg allowed i subs acc st)) = chronology_fixes st ->
  ordered_by_start (fst (validate_loop cfg allowed i subs acc st)).
Proof.
  intros cfg allowed subs. induction subs as [|cur rest IH]; intros i acc st Hmin Hv Ho Hc.
  - exact Ho.
  - simpl in *.
    assert (Hprev : forall p, hd_error acc = Some p -> validate p = true).
    { intros p Hp. destruct acc; [discriminate|]. injection Hp as ->.
      inversion Hv; assumption. }
    pose proof (apply_all_fixes_chronology cur (hd_error acc) cfg st
                  (allowed_lookup allowed (List.length acc) i) Hmin Hprev) as Hs.
    destruct (apply_all_fixes _ _ _ _ _) as [x st1].
    destruct Hs as [Hm1 Hord1].
    destruct (stats_chronology_updates st1) as [Hrem _].
    revert Hc. split_if; intro Hc.
    + pose proof (validate_loop_chrono_mono cfg allowed rest (i + 1)%Z (x :: acc) st1).
      assert (Heq : chronology_fixes st1 = chronology_fixes st) by lia.
      apply IH; [exact Hmin | constructor; assumption | | lia].
      apply chain_rev_cons; [exact Ho|]. intros y Hy. exact (Hord1 Heq y Hy).
    + pose proof (validate_loop_chrono_mono cfg allowed rest (i + 1)%Z acc
                    (incr_invalid_removed st1)).
      apply IH; [exact Hmin | exact Hv | exact Ho | lia].
Qed.

Lemma optimize_stats_chronology : forall n m t st,
  chronology_fixes (stop_timing t (set_counts n m st)) = chronology_fixes st.
Proof. intros n m t []. unfold stop_timing. simpl. destruct stats_start_time0; reflexivity. Qed.

(** ** C2 *)

(** C2: Amended: whenever the run records no chronology fix
    ([chronology_fixes = 0]), the output of [optimize] is ordered by start
    time.  (When the validator's chronology check fails it emits the cue
    with its pre-validation timing, which can break the order, as on
    [ex_unsorted_out].) *)
Theorem C2_ordered_without_chronology_fix : forall subs cfg track t0 t1,
  config_valid cfg = true ->
  let r := optimize subs cfg track t0 t1 in
  chronology_fixes (statistics r) = 0%nat -> ordered_by_start (subtitles r).
Proof.
  intros subs cfg track t0 t1 Hv r Hc.
  destruct (config_valid_bounds cfg Hv) as [Hmin _].
  destruct subs as [|c rest]; [exact I|].
  unfold r, optimize in *.
  destruct (_apply_optimization_pipeline (c :: rest) cfg _) as [out st] eqn:Ep.
  simpl in *. rewrite optimize_stats_chronology in Hc.
  revert Ep. unfold _apply_optimization_pipeline.
  destruct (phase1 _ _ _) as [v1 st1].
  destruct (rebalance_process _ _ _) as [v2 st2].
  destruct (anticipation_process _ _ _) as [v3 st3].
  unfold validator_process. destruct v3 as [|d v3].
  - intro Ep. injection Ep as <- _. exact I.
  - unfold validate_and_fix. intro Ep.
    pose proof (validate_loop_chrono_mono cfg (_detect_original_overlaps (c :: rest))
                  (d :: v3) 0%Z [] st3) as Hm.
    pose proof (validate_loop_ordered cfg (_detect_original_overlaps (c :: rest))
                  (d :: v3) 0%Z [] st3 Hmin (Forall_nil _) I) as Ho.
    rewrite Ep in Hm, Ho. simpl in *. apply Ho. lia.
Qed.

Lemma C2_witness :
  config_valid default_config = true /\
  chronology_fixes (statistics (optimize ex_s4 default_config 0%Z 0 0)) = 0%nat /\
  ordered_by_start (subtitles (optimize ex_s4 default_config 0%Z 0 0)).
Proof.
  split; [reflexivity|]. split; [vm_compute; reflexivity|].
  apply (C2_ordered_without_chronology_fix ex_s4 default_config 0%Z 0 0);
    vm_compute; reflexivity.
Defined.

(** Gap repair against an emitted previous cue: the result is at least
    [min_gap] after it, or overlaps it by more than half a second. *)
Lemma apply_all_fixes_gap : forall cur p cfg st,
  0 < min_duration cfg -> 0 <= min_gap cfg -> validate p = true ->
  let x := fst (apply_all_fixes cur (Some p) cfg st false) in
  min_gap cfg <= gap p x \/ gap p x < -(1#2).
Proof.
  intros cur p cfg st Hmin Hgap Hp. simpl.
  pose proof (validate_times p Hp) as [Hp0 Hp1].
  unfold apply_all_fixes.
  pose proof (fix_minimum_duration_props cur cfg st) as Hd.
  destruct (fix_minimum_duration cur cfg st) as [f1 st1].
  destruct Hd as [Hs1 [_ [Hdur1 _]]]. simpl negb. cbv iota.
  pose proof (fix_minimum_gap_props f1 p cfg st1) as Hg.
  destruct (fix_minimum_gap f1 (Some p) cfg st1) as [f2 st2].
  destruct Hg as [_ [Hdur2 Hcase]].
  unfold is_chronologically_valid.
  assert (Hrange : start_time p <= start_time f2 -> has_valid_time_range f2 = true).
  { intro Hle. apply has_valid_time_range_intro; [lra|]. unfold duration in *. lra. }
  unfold gap in *.
  destruct Hcase as [[Hge ->]|[[Hlt ->]|Hsh]].
  - assert (Hle : start_time p <= start_time f1) by lra.
    rewrite (proj2 (Qle_bool_iff _ _) Hle), (Hrange Hle). simpl. left. exact Hge.
  - assert (Hs : start_time f1 == start_time cur) by (rewrite Hs1; reflexivity).
    repeat split_if; simpl; right; lra.
  - assert (Hle : start_time p <= start_time f2) by lra.
    rewrite (proj2 (Qle_bool_iff _ _) Hle), (Hrange Hle). simpl. left. lra.
Qed.

Lemma validate_loop_idx_map : forall cfg allowed subs i acc st,
  map snd (fst (validate_loop_idx cfg allowed i subs acc st))
  = fst (validate_loop cfg allowed i subs (map snd acc) st) /\
  snd (validate_loop_idx cfg allowed i subs acc st)
  = snd (validate_loop cfg allowed i subs (map snd acc) st).
Proof.
  intros cfg allowed subs. induction subs as [|cur rest IH]; intros i acc st; simpl.
  - rewrite map_rev. split; reflexivity.
  - replace (option_map snd (hd_error acc)) with (hd_error (map snd acc))
      by (destruct acc; reflexivity).
    rewrite length_map.
    destruct (apply_all_fixes _ _ _ _ _) as [x st1].
    split_if; [apply (IH (i + 1)%Z ((i, x) :: acc) st1) | apply IH].
Qed.

Lemma validate_loop_idx_gaps : forall cfg R subs i acc st,
  0 < min_duration cfg -> 0 <= min_gap cfg ->
  (forall p, In p R -> snd p = (fst p + 1)%Z) ->
  Forall (fun a => validate (snd a) = true) acc ->
  (Z.of_nat (List.length acc) <= i)%Z ->
  (Z.of_nat (List.length acc) = i ->
   forall j x, hd_error acc = Some (j, x) -> j = (i - 1)%Z) ->
  chain (gap_ok cfg R) (rev acc) ->
  chain (gap_ok cfg R) (fst (validate_loop_idx cfg R i subs acc st)).
Proof.
  intros cfg R subs. induction subs as [|cur rest IH];
    intros i acc st Hmin Hgap Hshape Hv Hlen Hhd Hch; simpl; [exact Hch|].
  destruct (apply_all_fixes cur (option_map snd (hd_error acc)) cfg st
              (allowed_lookup R (List.length acc) i)) as [x st1] eqn:Ex.
  split_if.
  - apply IH; try assumption.
    + constructor; assumption.
    + simpl. lia.
    + intros _ j y Hy. simpl in Hy. injection Hy as <- _. lia.
    + apply chain_rev_cons; [exact Hch|].
      intros [j p] Hjp Hnot. simpl in Hnot |- *.
      assert (Hp : validate p = true).
      { destruct acc as [|a acc']; [discriminate|]. simpl in Hjp. injection Hjp as ->.
        inversion Hv; assumption. }
      destruct (allowed_lookup R (List.length acc) i) eqn:Hb.
      * exfalso. apply allowed_lookup_true in Hb as Hm.
        apply reg_mem_In, Hshape in Hm. simpl in Hm.
        assert (Hk : Z.of_nat (List.length acc) = i) by lia.
        rewrite (Hhd Hk j p Hjp) in Hnot.
        replace (i - 1)%Z with (Z.of_nat (List.length acc) - 1)%Z in Hnot by lia.
        apply allowed_lookup_true in Hb. congruence.
      * rewrite Hjp in Ex. simpl in Ex.
        pose proof (apply_all_fixes_gap cur p cfg st Hmin Hgap Hp) as Hg.
        rewrite Ex in Hg. exact Hg.
  - apply IH; try assumption.
    + lia.
    + intros Heq. lia.
Qed.

Lemma validate_loop_idx_positions : forall cfg R (F : list Subtitle) subs i acc st,
  (0 <= i)%Z ->
  (forall n, nth_error F (Z.to_nat i + n) = nth_error subs n) ->
  Forall (fun a => exists c, nth_error F (Z.to_nat (fst a)) = Some c /\
                             text c = text (snd a)) acc ->
  Forall (fun a => exists c, nth_error F (Z.to_nat (fst a)) = Some c /\
                             text c = text (snd a))
         (fst (validate_loop_idx cfg R i subs acc st)).
Proof.
  intros cfg R F subs. induction subs as [|cur rest IH]; intros i acc st Hi HF Hacc; simpl.
  - apply Forall_rev. exact Hacc.
  - pose proof (apply_all_fixes_text cur (option_map snd (hd_error acc)) cfg st
                  (allowed_lookup R (List.length acc) i)) as Ht.
    destruct (apply_all_fixes _ _ _ _ _) as [x st1]. simpl in Ht.
    assert (HF' : forall n, nth_error F (Z.to_nat (i + 1) + n) = nth_error rest n).
    { intro n. replace (Z.to_nat (i + 1) + n)%nat with (Z.to_nat i + S n)%nat by lia.
      apply HF. }
    split_if; apply IH; try lia; try exact HF'; try exact Hacc.
    constructor; [|exact Hacc]. exists cur. simpl. split; [|symmetry; exact Ht].
    specialize (HF 0%nat). rewrite Nat.add_0_r in HF. exact HF.
Qed.

(** ** C3 *)

(** C3: Amended: tag every output cue of the pipeline with its input
    position (these tags are input positions: the cue at position [j] has
    the text of input cue [j]).  For every two adjacent output cues whose
    positions are not a pair of the overlap registry, the gap between them
    is at least [min_gap], or it is below -0.5 s: the validator leaves an
    overlap of more than half a second as intentional. *)
Theorem C3_gap_unless_kept_overlap : forall subs cfg,
  config_valid cfg = true ->
  map snd (pipeline_indexed subs cfg) = pipeline subs cfg /\
  Forall (fun a => nth_error (map text subs) (Z.to_nat (fst a)) = Some (text (snd a)))
         (pipeline_indexed subs cfg) /\
  chain (gap_ok cfg (_detect_original_overlaps subs)) (pipeline_indexed subs cfg).
Proof.
  intros subs cfg Hv.
  destruct (config_valid_bounds cfg Hv) as [Hmin [Hgap _]].
  unfold pipeline_indexed, pipeline, _apply_optimization_pipeline, phase1.
  pose proof (duration_process_texts subs cfg (new_stats 0) None) as H1.
  destruct (duration_process _ _ _ _) as [v1 st1]. simpl in H1.
  pose proof (rebalance_process_texts v1 cfg st1) as H2.
  destruct (rebalance_process _ _ _) as [v2 st2]. simpl in H2.
  pose proof (anticipation_process_texts v2 cfg st2) as H3.
  destruct (anticipation_process _ _ _) as [v3 st3]. simpl in H3.
  destruct v3 as [|c rest]; [repeat split; constructor|].
  set (R := _detect_original_overlaps subs).
  split; [|split].
  - unfold validator_process, validate_and_fix.
    exact (proj1 (validate_loop_idx_map cfg R (c :: rest) 0%Z [] st3)).
  - pose proof (validate_loop_idx_positions cfg R (c :: rest) (c :: rest) 0%Z [] st3
                  ltac:(lia) (fun n => eq_refl) (Forall_nil _)) as Hpos.
    eapply Forall_impl; [|exact Hpos].
    assert (Hm : map text (c :: rest) = map text subs) by (rewrite H3, H2; exact H1).
    intros [j x] [c' [Hc' Ht]]. simpl in Hc', Ht |- *.
    rewrite <- Hm, nth_error_map, Hc'. simpl. rewrite Ht. reflexivity.
  - apply validate_loop_idx_gaps.
    + exact Hmin.
    + apply Qlt_le_weak. exact Hgap.
    + intros p Hp. exact (registry_shape subs p Hp).
    + constructor.
    + simpl. lia.
    + intros _ j x Hx. discriminate.
    + constructor.
Qed.

Lemma C3_witness :
  config_valid default_config = true /\
  chain (gap_ok default_config (_detect_original_overlaps ex_big_overlap))
        (pipeline_indexed ex_big_overlap default_config).
Proof.
  split; [reflexivity|].
  exact (proj2 (proj2 (C3_gap_unless_kept_overlap ex_big_overlap default_config
                         ltac:(reflexivity)))).
Defined.

(** * Further properties of the code *)

(** ** Further properties: duration_adjuster.py *)

Ltac if_hyps :=
  repeat match goal with H : context [if _ then _ else _] |- _ =>
    revert H; repeat split_if; intros ? end.

Lemma py_max_cases : forall a b, (py_max a b == b /\ a < b) \/ (py_max a b == a /\ b <= a).
Proof. intros a b. unfold py_max. destruct (Qltb a b) eqn:E; qbool; [left|right]; split; try reflexivity; lra. Qed.

Lemma py_min_cases : forall a b, (py_min a b == b /\ b < a) \/ (py_min a b == a /\ a <= b).
Proof. intros a b. unfold py_min. destruct (Qltb b a) eqn:E; qbool; [left|right]; split; try reflexivity; lra. Qed.

Lemma py_max_ge_l : forall a b, a <= py_max a b.
Proof. intros a b. destruct (py_max_cases a b) as [[H1 H2]|[H1 H2]]; lra. Qed.

Lemma py_max_lub : forall a b c, a <= c -> b <= c -> py_max a b <= c.
Proof. intros a b c. destruct (py_max_cases a b) as [[H1 H2]|[H1 H2]]; lra. Qed.

Lemma py_min_glb : forall a b c, c <= a -> c <= b -> c <= py_min a b.
Proof. intros a b c. destruct (py_min_cases a b) as [[H1 H2]|[H1 H2]]; lra. Qed.

Lemma duration_with_end_time : forall c t, duration (with_end_time c t) == t - start_time c.
Proof. intros. unfold duration, with_end_time. simpl. reflexivity. Qed.

Lemma py_max_mono_l : forall a a' b, a <= a' -> py_max a b <= py_max a' b.
Proof.
  intros a a' b H. apply py_max_lub.
  - eapply Qle_trans; [exact H|apply py_max_ge_l].
  - apply py_max_ge_r.
Qed.

(** X1: With [min_duration <= max_duration] the target duration lies in
    [[min_duration, max_duration]]; [adjust_duration] never makes a cue longer
    than [max(target, duration)], and without an allowed overlap never longer
    than [max(available duration, duration)]. *)
Theorem adjust_duration_target_bound : forall cur nxt cfg b,
  min_duration cfg <= max_duration cfg ->
  let target := calculate_target_duration cur (chars_per_sec cfg) (min_duration cfg) (max_duration cfg) in
  (min_duration cfg <= target <= max_duration cfg) /\
  duration (adjust_duration cur nxt cfg b) <= py_max target (duration cur) /\
  (b = false -> forall a, get_available_duration cur nxt (min_gap cfg) = Some a ->
     duration (adjust_duration cur nxt cfg b) <= py_max a (duration cur)).
Proof.
  intros cur nxt cfg b Hmm target.
  assert (Ht : target = py_max (min_duration cfg) (py_min (max_duration cfg) (ideal_duration cur cfg)))
    by reflexivity.
  split; [|split].
  - rewrite Ht. split; [apply py_max_ge_l|].
    apply py_max_lub; [exact Hmm|apply py_min_le_l].
  - unfold adjust_duration. rewrite <- Ht. rewrite duration_with_end_time.
    set (nd := match _ with Some m => py_min target m | None => target end).
    assert (Hnd : nd <= target).
    { unfold nd. destruct nxt as [n|]; [destruct b|]; try apply py_min_le_l; apply Qle_refl. }
    destruct (Qle_bool (py_max nd (duration cur)) 0) eqn:E.
    + pose proof (py_max_ge_r target (duration cur)). unfold duration in *. lra.
    + pose proof (py_max_mono_l nd target (duration cur) Hnd). lra.
  - intros -> a Ha. destruct nxt as [n|]; [|discriminate].
    simpl in Ha. injection Ha as <-.
    unfold adjust_duration. rewrite <- Ht. rewrite duration_with_end_time.
    set (m := start_time n - min_gap cfg - start_time cur).
    assert (Hnd : py_min target m <= py_max 0 m)
      by (eapply Qle_trans; [apply py_min_le_r|apply py_max_ge_r]).
    destruct (Qle_bool (py_max (py_min target m) (duration cur)) 0) eqn:E.
    + pose proof (py_max_ge_r (py_max 0 m) (duration cur)). unfold duration in *. lra.
    + pose proof (py_max_mono_l _ _ (duration cur) Hnd). lra.
Qed.

(** X2: For a cue of positive duration whose next cue (if any) starts at
    least [min_gap] after its end, the adjustment made without an allowed
    overlap is accepted by [validate_adjustment]. *)
Theorem adjust_duration_passes_validate_adjustment : forall cur nxt cfg,
  0 < duration cur ->
  (forall n, nxt = Some n -> min_gap cfg <= start_time n - end_time cur) ->
  validate_adjustment cur (adjust_duration cur nxt cfg false) nxt (min_gap cfg) = true.
Proof.
  intros cur nxt cfg Hd Hg.
  unfold validate_adjustment, adjust_duration.
  set (target := py_max (min_duration cfg) _).
  set (nd := match _ with Some m => py_min target m | None => target end).
  pose proof (py_max_ge_r nd (duration cur)) as Hf.
  set (f := py_max nd (duration cur)) in *.
  destruct (Qle_bool f 0) eqn:Ef.
  - apply Qle_bool_iff in Ef. unfold duration in *. lra.
  - apply Qle_bool_false in Ef.
    replace (duration (with_end_time cur (start_time cur + f)))
      with (start_time cur + f - start_time cur) by reflexivity.
    cbn [end_time start_time with_end_time].
    destruct (Qltb (start_time cur + f - start_time cur) (duration cur)) eqn:E1;
      [qbool; unfold duration in *; lra|].
    destruct nxt as [n|] eqn:En.
    + destruct (Qltb (start_time n - (start_time cur + f)) (min_gap cfg)) eqn:E2.
      * exfalso. qbool. specialize (Hg n eq_refl).
        unfold f, nd in *. simpl in *.
        destruct (py_max_cases (py_min target (start_time n - min_gap cfg - start_time cur)) (duration cur))
          as [[H1 H2]|[H1 H2]].
        -- unfold duration in *. lra.
        -- pose proof (py_min_le_r target (start_time n - min_gap cfg - start_time cur)). lra.
      * destruct (Qle_bool (start_time cur + f) (start_time cur)) eqn:E3;
          [apply Qle_bool_iff in E3; lra|reflexivity].
    + destruct (Qle_bool (start_time cur + f) (start_time cur)) eqn:E3;
        [apply Qle_bool_iff in E3; lra|reflexivity].
Qed.

(** ** Further properties: rebalancer.py *)

Lemma py_max_0_pos : forall x, 0 < x -> py_max 0 x = x.
Proof. intros x H. unfold py_max. destruct (Qltb 0 x) eqn:E; qbool; [reflexivity|lra]. Qed.

Lemma py_max_0_nonneg : forall x, 0 <= x -> py_max 0 x == x.
Proof. intros x H. destruct (py_max_cases 0 x) as [[H1 H2]|[H1 H2]]; lra. Qed.

(** X3: A transfer [t > 0] made by [rebalance_pair] is
    [calculate_transfer_amount] of the pair, and its estimated benefit is
    [t / 2]. *)
Theorem rebalance_transfer_is_calculated : forall c n cfg c' n' t,
  rebalance_pair c n cfg = (c', n', t) -> 0 < t ->
  t = calculate_transfer_amount c n cfg /\
  Rebalancer.estimate_benefit c n t cfg == t * (1#2).
Proof.
  intros c n cfg c' n' t Hp Ht. unfold rebalance_pair in Hp.
  destruct (should_rebalance c n cfg) eqn:Hs; simpl in Hp;
    [|injection Hp as _ _ <-; lra].
  unfold should_rebalance in Hs. apply andb_prop in Hs as [Hs1 Hs2]. qbool.
  set (d := short_threshold cfg - duration c) in *.
  set (s := duration n - long_threshold cfg) in *.
  revert Hp. repeat split_if; intro Hp; injection Hp as _ _ <-; try lra.
  assert (Hd : 0 < d) by (unfold d; lra).
  assert (Hsp : 0 < s) by (unfold s; lra).
  split.
  - unfold calculate_transfer_amount. fold d s.
    rewrite (py_max_0_pos d Hd), (py_max_0_pos s Hsp). reflexivity.
  - apply Qle_bool_false in E.
    pose proof (py_min_le_l d s). pose proof (py_min_le_r d s).
    set (m := py_min d s) in *.
    unfold Rebalancer.estimate_benefit.
    destruct (Qle_bool m 0) eqn:Em; [apply Qle_bool_iff in Em; lra|].
    fold d s.
    rewrite (py_max_0_pos d Hd), (py_max_0_pos s Hsp).
    rewrite (py_max_0_nonneg (short_threshold cfg - (duration c + m))) by (unfold d in *; lra).
    rewrite (py_max_0_nonneg (duration n - m - long_threshold cfg)) by (unfold s in *; lra).
    unfold d, s. ring.
Qed.

(** X4: [TemporalRebalancer.estimate_benefit] is [0] for a transfer
    [t <= 0] and lies in [[-t/2, t]] for [t > 0]. *)
Theorem rebalance_estimate_benefit_bounds : forall c n t cfg,
  (t <= 0 -> Rebalancer.estimate_benefit c n t cfg = 0) /\
  (0 < t -> -(t * (1#2)) <= Rebalancer.estimate_benefit c n t cfg <= t).
Proof.
  intros c n t cfg. unfold Rebalancer.estimate_benefit. split; intro Ht.
  - destruct (Qle_bool t 0) eqn:E; [reflexivity|apply Qle_bool_false in E; lra].
  - destruct (Qle_bool t 0) eqn:E; [apply Qle_bool_iff in E; lra|].
    destruct (py_max_cases 0 (short_threshold cfg - duration c)) as [[A1 A2]|[A1 A2]];
    destruct (py_max_cases 0 (short_threshold cfg - (duration c + t))) as [[B1 B2]|[B1 B2]];
    destruct (py_max_cases 0 (duration n - long_threshold cfg)) as [[C1 C2]|[C1 C2]];
    destruct (py_max_cases 0 (duration n - t - long_threshold cfg)) as [[D1 D2]|[D1 D2]];
    split; lra.
Qed.

(** ** Further properties: anticipator.py *)

(** X5: With [max_anticipation >= 0] the optimal anticipation lies in
    [[0, max_anticipation]]; a positive one fits in the room before the cue,
    keeps the duration within the target, and its estimated benefit is the
    whole amount. *)
Theorem optimal_anticipation_bounds : forall c p cfg,
  0 <= max_anticipation cfg ->
  let a := calculate_optimal_anticipation c p cfg in
  0 <= a <= max_anticipation cfg /\
  (0 < a ->
   a <= calculate_max_anticipation c p cfg /\
   duration c + a <= calculate_target_duration c (chars_per_sec cfg) (min_duration cfg) (max_duration cfg) /\
   Anticipator.estimate_benefit c a cfg == a).
Proof.
  intros c p cfg Hm a.
  assert (Hdef : a = calculate_optimal_anticipation c p cfg) by reflexivity.
  unfold calculate_optimal_anticipation in Hdef.
  change (py_max (min_duration cfg) (py_min (max_duration cfg) (ideal_duration c cfg)))
    with (calculate_target_duration c (chars_per_sec cfg) (min_duration cfg) (max_duration cfg)) in Hdef.
  set (T := calculate_target_duration c (chars_per_sec cfg) (min_duration cfg) (max_duration cfg)) in *.
  set (M := calculate_max_anticipation c p cfg) in *.
  destruct (Qle_bool M 0) eqn:EM.
  - rewrite Hdef. split; [split; lra|]. intro; lra.
  - apply Qle_bool_false in EM.
    set (nd := py_max 0 (T - duration c)) in *.
    set (o := py_min (py_min nd M) (max_anticipation cfg)) in *.
    pose proof (py_min_le_l (py_min nd M) (max_anticipation cfg)) as H1.
    pose proof (py_min_le_r (py_min nd M) (max_anticipation cfg)) as H2.
    pose proof (py_min_le_l nd M) as H3. pose proof (py_min_le_r nd M) as H4.
    fold o in H1, H2.
    destruct (py_max_cases 0 o) as [[Ha Ho]|[Ha Ho]]; rewrite Hdef.
    + split; [lra|]. intro Hpos.
      destruct (py_max_cases 0 (T - duration c)) as [[Hn1 Hn2]|[Hn1 Hn2]]; [|fold nd in Hn1; lra].
      fold nd in Hn1.
      split; [lra|]. split; [lra|].
      unfold Anticipator.estimate_benefit.
      destruct (Qle_bool (py_max 0 o) 0) eqn:E0; [apply Qle_bool_iff in E0; lra|].
      change (py_max (min_duration cfg) (py_min (max_duration cfg) (ideal_duration c cfg))) with T.
      rewrite (py_max_0_nonneg (T - duration c)) by lra.
      rewrite (py_max_0_nonneg (T - (duration c + py_max 0 o))) by lra.
      rewrite Ha. ring.
    + split; [split; lra|]. intro; lra.
Qed.

(** X6: [AnticipationAdjuster.estimate_benefit] is [0] for an anticipation
    [a <= 0] and lies in [[0, a]] for [a > 0]. *)
Theorem anticipator_estimate_benefit_bounds : forall s a cfg,
  (a <= 0 -> Anticipator.estimate_benefit s a cfg = 0) /\
  (0 < a -> 0 <= Anticipator.estimate_benefit s a cfg <= a).
Proof.
  intros s a cfg. unfold Anticipator.estimate_benefit. split; intro Ha.
  - destruct (Qle_bool a 0) eqn:E; [reflexivity|apply Qle_bool_false in E; lra].
  - destruct (Qle_bool a 0) eqn:E; [apply Qle_bool_iff in E; lra|].
    set (T := py_max (min_duration cfg) _).
    destruct (py_max_cases 0 (T - duration s)) as [[A1 A2]|[A1 A2]];
    destruct (py_max_cases 0 (T - (duration s + a))) as [[B1 B2]|[B1 B2]]; split; lra.
Qed.

(** ** Further properties: anticipator.py: candidates *)

Lemma optimal_anticipation_benefit : forall c p cfg,
  0 < calculate_optimal_anticipation c p cfg ->
  Anticipator.estimate_benefit c (calculate_optimal_anticipation c p cfg) cfg
    == calculate_optimal_anticipation c p cfg.
Proof.
  intros c p cfg.
  set (a := calculate_optimal_anticipation c p cfg).
  assert (Hdef : a = calculate_optimal_anticipation c p cfg) by reflexivity.
  unfold calculate_optimal_anticipation in Hdef.
  set (T := py_max (min_duration cfg) (py_min (max_duration cfg) (ideal_duration c cfg))) in *.
  set (M := calculate_max_anticipation c p cfg) in *.
  intro Hpos.
  destruct (Qle_bool M 0) eqn:EM; [rewrite Hdef in Hpos; lra|].
  set (nd := py_max 0 (T - duration c)) in *.
  set (o := py_min (py_min nd M) (max_anticipation cfg)) in *.
  pose proof (py_min_le_l (py_min nd M) (max_anticipation cfg)) as H1.
  pose proof (py_min_le_l nd M) as H3. fold o in H1.
  unfold Anticipator.estimate_benefit. fold T.
  destruct (Qle_bool a 0) eqn:E0; [apply Qle_bool_iff in E0; lra|].
  destruct (py_max_cases 0 o) as [[Ha Ho]|[Ha Ho]]; rewrite Hdef in Hpos |- *; [|lra].
  destruct (py_max_cases 0 (T - duration c)) as [[Hn1 Hn2]|[Hn1 Hn2]]; [|fold nd in Hn1; lra].
  fold nd in Hn1.
  rewrite (py_max_0_nonneg (T - duration c)) by lra.
  rewrite (py_max_0_nonneg (T - (duration c + py_max 0 o))) by lra.
  rewrite Ha. ring.
Qed.

Lemma insert_desc_perm : forall x l, Permutation (insert_desc x l) (x :: l).
Proof.
  intros x l. induction l as [|y r IH]; simpl; [reflexivity|].
  destruct (Qltb (snd y) (snd x)); [reflexivity|].
  rewrite IH. apply perm_swap.
Qed.

Lemma sort_desc_fold_perm : forall l acc,
  Permutation (fold_left (fun acc x => insert_desc x acc) l acc) (l ++ acc).
Proof.
  induction l as [|x l IH]; intros acc; simpl; [reflexivity|].
  rewrite IH, insert_desc_perm. symmetry. apply Permutation_middle.
Qed.

Lemma sort_desc_perm : forall l, Permutation (sort_desc l) l.
Proof. intros l. unfold sort_desc. rewrite sort_desc_fold_perm, app_nil_r. reflexivity. Qed.

Lemma insert_desc_chain : forall x l, chain desc_key l -> chain desc_key (insert_desc x l).
Proof.
  intros x l. induction l as [|y r IH]; intros H; simpl; [exact I|].
  destruct (Qltb (snd y) (snd x)) eqn:E.
  - simpl. split; [unfold desc_key; qbool; lra|exact H].
  - qbool. destruct r as [|z r'].
    + simpl. split; [exact E|exact I].
    + destruct H as [Hyz Hr]. specialize (IH Hr).
      simpl in IH |- *. destruct (Qltb (snd z) (snd x)) eqn:E2.
      * split; [exact E|exact IH].
      * split; [exact Hyz|exact IH].
Qed.

Lemma sort_desc_chain : forall l, chain desc_key (sort_desc l).
Proof.
  intros l. unfold sort_desc.
  assert (H : forall acc, chain desc_key acc ->
            chain desc_key (fold_left (fun acc x => insert_desc x acc) l acc)).
  { induction l as [|x l IH]; intros acc Hacc; simpl; [exact Hacc|].
    apply IH, insert_desc_chain, Hacc. }
  apply H. exact I.
Qed.

Lemma chain_map : forall {A B} (R : B -> B -> Prop) (f : A -> B) l,
  chain (fun x y => R (f x) (f y)) l -> chain R (map f l).
Proof.
  intros A B R f l. induction l as [|x [|y r] IH]; simpl; auto.
  intros [H1 H2]. split; [exact H1|]. apply IH. exact H2.
Qed.

Lemma chain_impl_Forall : forall {A} (P : A -> Prop) (R R' : A -> A -> Prop) l,
  (forall x y, P x -> P y -> R x y -> R' x y) ->
  Forall P l -> chain R l -> chain R' l.
Proof.
  intros A P R R' l HR. induction l as [|x [|y r] IH]; simpl; auto.
  intros HF [H1 H2]. inversion HF as [|? ? Px HF']. inversion HF' as [|? ? Py _].
  split; [apply HR; assumption|]. apply IH; assumption.
Qed.

Lemma candidates_loop_In : forall cfg l k prev j a b,
  In (j, a, b) (candidates_loop cfg k prev l) <->
  exists m s, j = (k + m)%nat /\ nth_error l m = Some s /\
    a = calculate_optimal_anticipation s (nth m (prev :: map Some l) None) cfg /\
    1#10 < a /\ b = Anticipator.estimate_benefit s a cfg.
Proof.
  intros cfg l. induction l as [|s r IH]; intros k prev j a b; simpl.
  - split; [intros []|]. intros (m & s & _ & Hm & _). destruct m; discriminate.
  - rewrite in_app_iff, IH. split.
    + intros [Hin|(m & s' & Hj & Hm & Ha & Hlt & Hb)].
      * destruct (Qltb (1#10) (calculate_optimal_anticipation s prev cfg)) eqn:E;
          [|contradiction].
        destruct Hin as [Heq|[]]. injection Heq as <- <- <-.
        exists 0%nat, s. qbool. repeat split; auto; lia.
      * exists (S m), s'. repeat split; auto; lia.
    + intros (m & s' & Hj & Hm & Ha & Hlt & Hb). destruct m as [|m].
      * left. injection Hm as <-. simpl in Ha.
        destruct (Qltb (1#10) (calculate_optimal_anticipation s prev cfg)) eqn:E.
        -- left. subst. f_equal. f_equal. lia.
        -- exfalso. qbool. subst a. lra.
      * right. exists m, s'. repeat split; auto; lia.
Qed.

Lemma candidates_loop_idx : forall cfg l k prev,
  Forall (fun e => (k <= fst (fst e))%nat) (candidates_loop cfg k prev l) /\
  NoDup (map (fun e => fst (fst e)) (candidates_loop cfg k prev l)).
Proof.
  intros cfg l. induction l as [|s r IH]; intros k prev; simpl.
  - split; constructor.
  - destruct (IH (S k) (Some s)) as [Hf Hn].
    destruct (Qltb _ _); simpl.
    + split.
      * constructor; [simpl; lia|]. eapply Forall_impl; [|exact Hf]. simpl; intros; lia.
      * constructor; [|exact Hn]. intro Hin. apply in_map_iff in Hin as (e & He & Hin).
        rewrite Forall_forall in Hf. specialize (Hf e Hin). simpl in He. lia.
    + split; [eapply Forall_impl; [|exact Hf]; simpl; intros; lia|exact Hn].
Qed.

Lemma candidates_loop_benefit : forall cfg l k prev,
  Forall (fun e : nat * Q * Q => snd e == snd (fst e)) (candidates_loop cfg k prev l).
Proof.
  intros cfg l. induction l as [|s r IH]; intros k prev; simpl; [constructor|].
  apply Forall_app. split; [|apply IH].
  destruct (Qltb (1#10) (calculate_optimal_anticipation s prev cfg)) eqn:E; [|constructor].
  constructor; [|constructor]. simpl. qbool. apply optimal_anticipation_benefit. lra.
Qed.

(** X7: [get_anticipation_candidates] lists exactly the indices whose
    optimal anticipation (against the previous input cue) exceeds 0.1 s, with
    that anticipation, each index once, by non-increasing anticipation. *)
Theorem anticipation_candidates_spec : forall subs cfg,
  let out := get_anticipation_candidates subs cfg in
  (forall i a, In (i, a) out <->
     exists s, nth_error subs i = Some s /\
       a = calculate_optimal_anticipation s (nth i (None :: map Some subs) None) cfg /\
       1#10 < a) /\
  NoDup (map fst out) /\
  chain (fun x y => snd y <= snd x) out.
Proof.
  intros subs cfg out.
  set (cands := candidates_loop cfg 0 None subs).
  pose proof (sort_desc_perm cands) as Hp.
  assert (Hout : out = map (fun e => (fst (fst e), snd (fst e))) (sort_desc cands)) by reflexivity.
  split; [|split].
  - intros i a. rewrite Hout, in_map_iff. split.
    + intros ([[j a'] b] & Heq & Hin). simpl in Heq. injection Heq as -> ->.
      apply (Permutation_in _ Hp) in Hin. apply candidates_loop_In in Hin.
      destruct Hin as (m & s & Hj & Hm & Ha & Hlt & _). simpl in Hj. subst.
      exists s. auto.
    + intros (s & Hs & Ha & Hlt).
      exists (i, a, Anticipator.estimate_benefit s a cfg). split; [reflexivity|].
      apply (Permutation_in _ (Permutation_sym Hp)). apply candidates_loop_In.
      exists i, s. auto.
  - rewrite Hout, map_map. simpl.
    apply (Permutation_NoDup (Permutation_map _ (Permutation_sym Hp))).
    apply (candidates_loop_idx cfg subs 0 None).
  - rewrite Hout. apply chain_map.
    apply (chain_impl_Forall (fun e : nat * Q * Q => snd e == snd (fst e)) desc_key).
    + intros x y Hx Hy H. unfold desc_key in H. simpl. lra.
    + apply (Permutation_Forall (Permutation_sym Hp)), candidates_loop_benefit.
    + apply sort_desc_chain.
Qed.

(** ** Further properties: anticipator.py: potential *)

Lemma inject_nat_S : forall n, inject_Z (Z.of_nat (S n)) == inject_Z (Z.of_nat n) + 1.
Proof. intros n. rewrite Nat2Z.inj_succ, <- Z.add_1_r, inject_Z_plus. reflexivity. Qed.

Lemma inject_nat_le : forall n m, (n <= m)%nat -> inject_Z (Z.of_nat n) <= inject_Z (Z.of_nat m).
Proof. intros n m H. rewrite <- Zle_Qle. lia. Qed.

Lemma inject_nat_pos : forall n, (0 < n)%nat -> 0 < inject_Z (Z.of_nat n).
Proof. intros n H. change 0 with (inject_Z 0). rewrite <- Zlt_Qlt. lia. Qed.

Lemma potential_loop_inv : forall cfg l prev a0 t0,
  let r := potential_loop cfg prev l a0 t0 in
  (a0 <= fst r <= a0 + List.length l)%nat /\
  (fst r = a0 -> snd r == t0) /\
  ((a0 < fst r)%nat ->
   t0 + inject_Z (Z.of_nat (fst r)) * (1#10) < snd r + inject_Z (Z.of_nat a0) * (1#10)).
Proof.
  intros cfg l. induction l as [|s rest IH]; intros prev a0 t0; simpl.
  - split; [lia|]. split; [reflexivity|]. lia.
  - destruct (Qltb (1#10) (calculate_max_anticipation s prev cfg)) eqn:E.
    + qbool. destruct (IH (Some s) (S a0) (t0 + calculate_max_anticipation s prev cfg))
        as [H1 [H2 H3]].
      set (r := potential_loop _ _ _ _ _) in *.
      split; [lia|]. split; [lia|]. intros _.
      pose proof (inject_nat_S a0) as Hs.
      destruct (Nat.eq_dec (fst r) (S a0)) as [He|He].
      * specialize (H2 He). rewrite He. lra.
      * assert (Hlt : (S a0 < fst r)%nat) by lia. specialize (H3 Hlt). lra.
    + destruct (IH (Some s) a0 t0) as [H1 [H2 H3]]. split; [lia|]. split; assumption.
Qed.

(** X8: [analyze_anticipation_potential] counts all cues, at most that many
    are anticipatable, the percentage is in [[0, 100]], and either none is
    anticipatable (total and average 0) or the average exceeds 0.1 s. *)
Theorem anticipation_potential_bounds : forall subs cfg,
  let r := analyze_anticipation_potential subs cfg in
  pot_total_subtitles r = List.length subs /\
  (pot_anticipatable_count r <= List.length subs)%nat /\
  0 <= pot_anticipatable_percentage r <= 100 /\
  ((pot_anticipatable_count r = 0%nat /\ pot_total_potential r == 0 /\ pot_avg_potential r == 0) \/
   ((0 < pot_anticipatable_count r)%nat /\ 1#10 < pot_avg_potential r)).
Proof.
  intros subs cfg r. unfold r, analyze_anticipation_potential.
  destruct (potential_loop_inv cfg subs None 0 0) as [H1 [H2 H3]].
  destruct (potential_loop cfg None subs 0 0) as [a t] eqn:Ep. simpl in H1, H2, H3 |- *.
  split; [reflexivity|]. split; [lia|]. split.
  - destruct (0 <? List.length subs)%nat eqn:Et; [|split; lra].
    apply Nat.ltb_lt in Et.
    pose proof (inject_nat_pos _ Et) as Hpos.
    pose proof (inject_nat_le a (List.length subs) ltac:(lia)) as Hle.
    assert (Ha0 : 0 <= inject_Z (Z.of_nat a)) by (apply (inject_nat_le 0); lia).
    assert (Hq1 : inject_Z (Z.of_nat a) / inject_Z (Z.of_nat (List.length subs)) <= 1)
      by (apply Qle_shift_div_r; lra).
    assert (Hq0 : 0 <= inject_Z (Z.of_nat a) / inject_Z (Z.of_nat (List.length subs)))
      by (apply Qle_shift_div_l; lra).
    set (q := inject_Z (Z.of_nat a) / inject_Z (Z.of_nat (List.length subs))) in *. split; lra.
  - destruct a as [|a'].
    + left. split; [reflexivity|]. split; [apply H2; reflexivity|]. simpl. reflexivity.
    + right. split; [lia|]. simpl (0 <? S a')%nat. cbv iota.
      specialize (H3 ltac:(lia)). assert (Hz : inject_Z 0 == 0) by reflexivity.
      pose proof (inject_nat_pos (S a') ltac:(lia)) as Hpos.
      apply Qlt_shift_div_l; [exact Hpos|]. lra.
Qed.

(** ** Further properties: validator.py: detect_overlaps *)

Lemma detect_overlaps_body : forall L, detect_overlaps L = flat_map (overlap_body L) (seq 0 (List.length L - 1)).
Proof. reflexivity. Qed.

Lemma detect_overlaps_from_cons2 : forall i c n r,
  detect_overlaps_from i (c :: n :: r)
  = (if Qltb (start_time n) (end_time c) then [(i, (i + 1)%Z)] else [])
      ++ detect_overlaps_from (i + 1)%Z (n :: r).
Proof. reflexivity. Qed.

Lemma seq_flat_map_cons : forall {B} (f : nat -> list B) k m,
  flat_map f (seq k (S m)) = f k ++ flat_map f (seq (S k) m).
Proof. reflexivity. Qed.

Lemma detect_overlaps_from_app : forall l P,
  flat_map (overlap_body (P ++ l)) (seq (List.length P) (List.length l - 1))
  = detect_overlaps_from (Z.of_nat (List.length P)) l.
Proof.
  induction l as [|c l IH]; intros P; [reflexivity|].
  destruct l as [|n r]; [reflexivity|].
  rewrite detect_overlaps_from_cons2.
  replace (List.length (c :: n :: r) - 1)%nat with (S (List.length r)) by (simpl; lia).
  rewrite seq_flat_map_cons.
  f_equal.
  - unfold overlap_body.
    rewrite nth_error_app2 by lia. rewrite Nat.sub_diag.
    replace (S (List.length P)) with (List.length P + 1)%nat by lia.
    rewrite nth_error_app2 by lia.
    replace (List.length P + 1 - List.length P)%nat with 1%nat by lia. simpl.
    rewrite Nat2Z.inj_add. reflexivity.
  - replace (Z.of_nat (List.length P) + 1)%Z with (Z.of_nat (List.length (P ++ [c])))
      by (rewrite length_app; simpl; lia).
    rewrite <- IH. rewrite <- app_assoc. simpl app. rewrite length_app. simpl List.length.
    replace (List.length P + 1)%nat with (S (List.length P)) by lia.
    replace (S (List.length r) - 1)%nat with (List.length r) by lia. reflexivity.
Qed.

Lemma detect_overlaps_eq : forall subs, detect_overlaps subs = _detect_original_overlaps subs.
Proof.
  intros subs. rewrite detect_overlaps_body. exact (detect_overlaps_from_app subs []).
Qed.


(** ** Further properties: validator.py: fix_overlaps *)

Lemma set_nth_app : forall {A} (F l : list A) x y,
  set_nth (F ++ x :: l) (List.length F) y = F ++ y :: l.
Proof. intros A F. induction F as [|a F IH]; intros l x y; simpl; [reflexivity|]. rewrite IH. reflexivity. Qed.

Lemma fix_overlaps_fold : forall cfg S F st,
  fst (fold_left (fix_overlaps_step cfg) (detect_overlaps_from (Z.of_nat (List.length F)) S) (F ++ S, st))
  = F ++ fix_overlaps_spec cfg S.
Proof.
  intros cfg S. induction S as [|c S IH]; intros F st; [reflexivity|].
  destruct S as [|n r]; [reflexivity|].
  rewrite detect_overlaps_from_cons2, fold_left_app.
  set (i := Z.of_nat (List.length F)).
  assert (Hi1 : (i + 1)%Z = Z.of_nat (List.length (F ++ [c])))
    by (unfold i; rewrite length_app; simpl; lia).
  cbn [fix_overlaps_spec].
  destruct (Qltb (start_time n) (end_time c)) eqn:Eov; cbn [fold_left].
  - unfold fix_overlaps_step at 2.
    rewrite length_app. simpl List.length.
    assert (Hb : ((i <? Z.of_nat (List.length F + S (S (List.length r))))%Z &&
                  (i + 1 <? Z.of_nat (List.length F + S (S (List.length r))))%Z)%bool = true)
      by (apply andb_true_intro; split; apply Z.ltb_lt; unfold i; lia).
    rewrite Hb.
    assert (Hc : nth_error (F ++ c :: n :: r) (Z.to_nat i) = Some c)
      by (unfold i; rewrite Nat2Z.id, nth_error_app2, Nat.sub_diag by lia; reflexivity).
    assert (Hn : nth_error (F ++ c :: n :: r) (Z.to_nat (i + 1)) = Some n).
    { unfold i. replace (Z.to_nat (Z.of_nat (List.length F) + 1)) with (List.length F + 1)%nat by lia.
      rewrite nth_error_app2 by lia. replace (List.length F + 1 - List.length F)%nat with 1%nat by lia.
      reflexivity. }
    rewrite Hc, Hn. simpl andb.
    destruct (Qltb (start_time c + min_duration cfg) (start_time n - min_gap cfg)) eqn:Efx.
    + replace (Z.to_nat i) with (List.length F) by (unfold i; lia). rewrite set_nth_app, Hi1.
      replace (F ++ with_end_time c (start_time n - min_gap cfg) :: n :: r)
        with ((F ++ [with_end_time c (start_time n - min_gap cfg)]) ++ n :: r)
        by (rewrite <- app_assoc; reflexivity).
      replace (Z.of_nat (List.length (F ++ [c])))
        with (Z.of_nat (List.length (F ++ [with_end_time c (start_time n - min_gap cfg)])))
        by (rewrite !length_app; reflexivity).
      rewrite IH, <- app_assoc. reflexivity.
    + rewrite Hi1.
      replace (F ++ c :: n :: r) with ((F ++ [c]) ++ n :: r) by (rewrite <- app_assoc; reflexivity).
      rewrite IH, <- app_assoc. reflexivity.
  - rewrite Hi1.
    replace (F ++ c :: n :: r) with ((F ++ [c]) ++ n :: r) by (rewrite <- app_assoc; reflexivity).
    rewrite IH, <- app_assoc. reflexivity.
Qed.

Lemma fix_overlaps_is_spec : forall subs cfg st,
  fst (fix_overlaps subs cfg st) = fix_overlaps_spec cfg subs.
Proof.
  intros subs cfg st. unfold fix_overlaps. rewrite detect_overlaps_eq.
  exact (fix_overlaps_fold cfg subs [] st).
Qed.

(** ** Further properties: validator.py: fix_overlaps *)

Lemma fix_overlaps_spec_frame : forall cfg l, 0 <= min_gap cfg ->
  Forall2 (fun c c' => index c' = index c /\ start_time c' = start_time c /\ text c' = text c /\
                       metadata c' = metadata c /\ end_time c' <= end_time c)
          l (fix_overlaps_spec cfg l).
Proof.
  intros cfg l Hg. induction l as [|c l IH]; [constructor|].
  destruct l as [|n r].
  - constructor; [repeat split; apply Qle_refl|constructor].
  - cbn [fix_overlaps_spec]. constructor; [|exact IH].
    destruct (Qltb (start_time n) (end_time c) && _) eqn:E.
    + apply andb_prop in E as [E1 _]. qbool. simpl. repeat split. lra.
    + repeat split. apply Qle_refl.
Qed.

Lemma fix_overlaps_spec_hd : forall cfg n r,
  exists n' rest, fix_overlaps_spec cfg (n :: r) = n' :: rest /\ start_time n' = start_time n.
Proof.
  intros cfg n [|m r]; cbn [fix_overlaps_spec].
  - exists n, []. split; reflexivity.
  - eexists; eexists; split; [reflexivity|]. destruct (_ && _); reflexivity.
Qed.

Lemma fix_overlaps_spec_cons2 : forall cfg c n r,
  fix_overlaps_spec cfg (c :: n :: r)
  = (if Qltb (start_time n) (end_time c) &&
        Qltb (start_time c + min_duration cfg) (start_time n - min_gap cfg)
     then with_end_time c (start_time n - min_gap cfg) else c)
      :: fix_overlaps_spec cfg (n :: r).
Proof. reflexivity. Qed.

Lemma fix_overlaps_spec_overlaps : forall cfg l k i j, 0 <= min_gap cfg ->
  In (i, j) (detect_overlaps_from k (fix_overlaps_spec cfg l)) ->
  exists m c n, i = (k + Z.of_nat m)%Z /\ j = (i + 1)%Z /\
    nth_error l m = Some c /\ nth_error l (S m) = Some n /\
    start_time n < end_time c /\ start_time n - min_gap cfg <= start_time c + min_duration cfg.
Proof.
  intros cfg l. induction l as [|c l IH]; intros k i j Hg Hin; [contradiction|].
  destruct l as [|n r]; [contradiction|].
  rewrite fix_overlaps_spec_cons2 in Hin.
  destruct (fix_overlaps_spec_hd cfg n r) as (n' & rest & Hsp & Hst).
  rewrite Hsp in Hin. rewrite detect_overlaps_from_cons2, <- Hsp in Hin.
  apply in_app_or in Hin as [Hin|Hin].
  - destruct (Qltb (start_time n') (end_time _)) eqn:Eo; [|contradiction].
    destruct Hin as [Heq|[]]. injection Heq as <- <-.
    exists 0%nat, c, n. split; [lia|]. split; [reflexivity|]. split; [reflexivity|]. split; [reflexivity|].
    qbool. rewrite Hst in Eo.
    destruct (Qltb (start_time n) (end_time c) &&
              Qltb (start_time c + min_duration cfg) (start_time n - min_gap cfg)) eqn:E.
    + simpl in Eo. lra.
    + split; [exact Eo|]. apply andb_false_iff in E as [E|E]; qbool; [lra|exact E].
  - destruct (IH (k + 1)%Z i j Hg Hin) as (m & c' & n'' & Hi & Hj & Hc & Hn & H1 & H2).
    exists (S m), c', n''. repeat split; auto. lia.
Qed.

(** X10: With [min_gap >= 0], [fix_overlaps] keeps every cue's index,
    start, text and metadata and never moves an end later; an overlap left in
    its output is an overlap of the input that the fix would have shrunk to
    [min_duration] or less. *)
Theorem fix_overlaps_result : forall subs cfg st,
  0 <= min_gap cfg ->
  let out := fst (fix_overlaps subs cfg st) in
  Forall2 (fun c c' => index c' = index c /\ start_time c' = start_time c /\ text c' = text c /\
                       metadata c' = metadata c /\ end_time c' <= end_time c) subs out /\
  (forall i j, In (i, j) (detect_overlaps out) ->
     j = (i + 1)%Z /\
     exists c n, nth_error subs (Z.to_nat i) = Some c /\ nth_error subs (Z.to_nat j) = Some n /\
       start_time n < end_time c /\
       start_time n - min_gap cfg <= start_time c + min_duration cfg).
Proof.
  intros subs cfg st Hg out. unfold out. rewrite fix_overlaps_is_spec.
  split; [apply fix_overlaps_spec_frame; exact Hg|].
  intros i j Hin. rewrite detect_overlaps_eq in Hin.
  destruct (fix_overlaps_spec_overlaps cfg subs 0 i j Hg Hin)
    as (m & c & n & Hi & Hj & Hc & Hn & H1 & H2).
  split; [exact Hj|]. exists c, n.
  replace (Z.to_nat i) with m by lia. replace (Z.to_nat j) with (S m) by lia. auto.
Qed.

(** ** Further properties: validator.py: validate_sequence *)

Lemma b2n_le1 : forall b, (b2n b <= 1)%nat.
Proof. intros []; simpl; lia. Qed.

Lemma overlap_flag : forall cfg g, 0 < min_gap cfg ->
  Qltb g (min_gap cfg) && Qltb g 0 = Qltb g 0.
Proof.
  intros cfg g Hg. destruct (Qltb g 0) eqn:E; [|apply andb_false_r].
  rewrite andb_true_r. qbool. apply Qltb_true. lra.
Qed.

Lemma Qltb_gap_neg : forall a b, Qltb (a - b) 0 = Qltb a b.
Proof.
  intros a b. destruct (Qltb a b) eqn:E; qbool.
  - apply Qltb_true. lra.
  - apply Qltb_false. lra.
Qed.

Lemma validate_sequence_loop_props : forall cfg l p r0 k, 0 < min_gap cfg ->
  let r := validate_sequence_loop cfg (Some p) l r0 in
  total_subtitles r = total_subtitles r0 /\
  (valid_subtitles r <= valid_subtitles r0 + List.length l)%nat /\
  viol_overlaps r = (viol_overlaps r0 + List.length (detect_overlaps_from k (p :: l)))%nat /\
  (viol_overlaps r + viol_min_gap r <= viol_overlaps r0 + viol_min_gap r0 + List.length l)%nat /\
  (viol_chronology r0 <= viol_chronology r)%nat /\
  (viol_chronology r = viol_chronology r0 <-> ordered_by_start (p :: l)).
Proof.
  intros cfg l. induction l as [|s l IH]; intros p r0 k Hg.
  - simpl. repeat split; try lia; auto.
  - cbn [validate_sequence_loop List.length].
    change (ordered_by_start (p :: s :: l)) with
      (start_time p <= start_time s /\ ordered_by_start (s :: l)).
    destruct (IH s (validate_sequence_step cfg s (Some p) r0) (k + 1)%Z Hg)
      as (H1 & H2 & H3 & H4 & H5 & H6).
    set (r := validate_sequence_loop _ _ _ _) in *.
    unfold validate_sequence_step in *. simpl in H1, H2, H3, H4, H5, H6.
    rewrite overlap_flag in H3, H4 by exact Hg.
    rewrite Qltb_gap_neg in H3, H4.
    pose proof (b2n_le1 (negb (validate s) || Qltb (duration s) (min_duration cfg) ||
       Qltb (start_time s) (start_time p) || Qltb (start_time s) (end_time p) ||
       (Qltb (start_time s - end_time p) (min_gap cfg) && negb (Qltb (start_time s) (end_time p))))).
    split; [exact H1|]. split.
    { revert H2. destruct (negb (validate s) || _ || _ || _ || _); simpl; lia. }
    split.
    { rewrite H3, detect_overlaps_from_cons2, length_app.
      destruct (Qltb (start_time s) (end_time p)); simpl; lia. }
    split.
    { rewrite Qltb_gap_neg in *.
      destruct (Qltb (start_time s) (end_time p));
        destruct (Qltb (start_time s - end_time p) (min_gap cfg)); simpl in *; lia. }
    split.
    { pose proof (b2n_le1 (Qltb (start_time s) (start_time p))). lia. }
    destruct (Qltb (start_time s) (start_time p)) eqn:Ec; simpl b2n in *.
    + split; [lia|]. intros [Hps _]. qbool. lra.
    + qbool. rewrite Nat.add_0_r in H6. rewrite <- H6.
      split; [intros Ho; split; assumption|intros [_ Ho]; exact Ho].
Qed.

(** X11: With [min_gap > 0], [validate_sequence] counts every cue, at most
    all of them valid, exactly the overlaps [detect_overlaps] finds, at most
    [len - 1] overlap and gap violations together, and no chronology
    violation exactly when the starts are non-decreasing. *)
Theorem validate_sequence_counts : forall subs cfg,
  0 < min_gap cfg ->
  let r := validate_sequence subs cfg in
  total_subtitles r = List.length subs /\
  (valid_subtitles r <= List.length subs)%nat /\
  viol_overlaps r = List.length (detect_overlaps subs) /\
  (viol_overlaps r + viol_min_gap r <= List.length subs - 1)%nat /\
  (viol_chronology r = 0%nat <-> ordered_by_start subs).
Proof.
  intros subs cfg Hg r. unfold r, validate_sequence.
  rewrite detect_overlaps_eq. unfold _detect_original_overlaps.
  destruct subs as [|s l].
  - simpl. repeat split; try lia; auto.
  - cbn [validate_sequence_loop List.length].
    set (r0 := validate_sequence_step cfg s None _).
    destruct (validate_sequence_loop_props cfg l s r0 0%Z Hg)
      as (H1 & H2 & H3 & H4 & H5 & H6).
    assert (E : total_subtitles r0 = S (List.length l) /\ (valid_subtitles r0 <= 1)%nat /\
                viol_overlaps r0 = 0%nat /\ viol_min_gap r0 = 0%nat /\ viol_chronology r0 = 0%nat).
    { unfold r0, validate_sequence_step. cbn. repeat split; apply b2n_le1. }
    destruct E as (E1 & E2 & E3 & E4 & E5).
    rewrite E1 in H1. rewrite E3 in H3. rewrite E3, E4 in H4. rewrite E5 in H6.
    split; [exact H1|]. split; [lia|]. split; [exact H3|]. split; [lia|]. exact H6.
Qed.

(** ** Further properties: statistics.py through the pipeline *)

Lemma py_sum_acc : forall xs a, fold_left Qplus xs a == a + py_sum xs.
Proof.
  unfold py_sum. induction xs as [|x xs IH]; intros a; simpl; [ring|].
  rewrite (IH (a + x)), (IH (0 + x)). ring.
Qed.

Lemma py_sum_snoc : forall xs x, py_sum (xs ++ [x]) == py_sum xs + x.
Proof. intros xs x. unfold py_sum at 1. rewrite fold_left_app. simpl. reflexivity. Qed.

Lemma py_sum_cons : forall x xs, py_sum (x :: xs) == x + py_sum xs.
Proof. intros x xs. unfold py_sum at 1. simpl. rewrite py_sum_acc. ring. Qed.

(** Passes as induction principles over the statistics they touch. *)

Lemma adjust_duration_grows : forall c n cfg b,
  duration c <= duration (adjust_duration c n cfg b).
Proof.
  intros c n cfg b. destruct (adjust_duration_frame c n cfg b) as (H1 & _ & _ & _ & H2).
  unfold duration. rewrite H1. lra.
Qed.

Lemma duration_loop_stats : forall (P : OptimizationStatistics -> Prop) cfg allowed,
  (forall st c, 0 <= c -> P st -> P (add_duration_change c st)) ->
  forall subs i st, P st -> P (snd (duration_loop cfg allowed i subs st)).
Proof.
  intros P cfg allowed Hadd subs. induction subs as [|c rest IH]; intros i st Hst; simpl; [exact Hst|].
  match goal with |- context [duration_loop cfg allowed ?j rest ?s] =>
    specialize (IH j s); destruct (duration_loop cfg allowed j rest s) end.
  simpl in *. apply IH. split_if; [|exact Hst].
  apply Hadd; [|exact Hst]. pose proof (adjust_duration_grows c (hd_error rest) cfg
    (match hd_error rest with Some _ => reg_mem (i, (i + 1)%Z) allowed | None => false end)).
  lra.
Qed.

Lemma duration_process_stats : forall (P : OptimizationStatistics -> Prop) cfg ov,
  (forall st c, 0 <= c -> P st -> P (add_duration_change c st)) ->
  forall subs st, P st -> P (snd (duration_process subs cfg st ov)).
Proof.
  intros P cfg ov Hadd [|c rest] st Hst; [exact Hst|]. unfold duration_process. apply duration_loop_stats; assumption.
Qed.

Lemma rebalance_loop_stats : forall (P : OptimizationStatistics -> Prop) cfg,
  (forall st t, P st -> P (add_rebalancing_transfer t st)) ->
  forall rest cur st, P st -> P (snd (rebalance_loop cfg cur rest st)).
Proof.
  intros P cfg Hadd rest. induction rest as [|n rest IH]; intros cur st Hst; simpl; [exact Hst|].
  destruct (rebalance_pair cur n cfg) as [[nc nn] t].
  split_if.
  - specialize (IH nn (add_rebalancing_transfer t st) (Hadd st t Hst)).
    destruct (rebalance_loop _ _ _ _). exact IH.
  - specialize (IH n st Hst). destruct (rebalance_loop _ _ _ _). exact IH.
Qed.

Lemma rebalance_process_stats : forall (P : OptimizationStatistics -> Prop) cfg,
  (forall st t, P st -> P (add_rebalancing_transfer t st)) ->
  forall subs st, P st -> P (snd (rebalance_process subs cfg st)).
Proof.
  intros P cfg Hadd [|c [|n rest]] st Hst; try exact Hst.
  unfold rebalance_process. apply rebalance_loop_stats; assumption.
Qed.

Lemma apply_anticipation_offset : forall c p cfg,
  snd (apply_anticipation c p cfg) == 0 \/ snd (apply_anticipation c p cfg) <= max_anticipation cfg.
Proof.
  intros c p cfg. unfold apply_anticipation.
  repeat split_if; simpl; try (left; reflexivity).
  right. apply py_min_le_r.
Qed.

Lemma anticipation_loop_stats : forall (P : OptimizationStatistics -> Prop) cfg,
  (forall st t, t <= max_anticipation cfg -> P st -> P (add_anticipation t st)) ->
  forall subs acc st, P st -> P (snd (anticipation_loop cfg subs acc st)).
Proof.
  intros P cfg Hadd subs. induction subs as [|c rest IH]; intros acc st Hst; simpl; [exact Hst|].
  pose proof (apply_anticipation_offset c (hd_error acc) cfg) as Ho.
  destruct (apply_anticipation c (hd_error acc) cfg) as [c' off]. simpl in Ho.
  apply IH. split_if; [|exact Hst]. qbool.
  apply Hadd; [|exact Hst]. destruct Ho as [Ho|Ho]; lra.
Qed.

Lemma anticipation_process_stats : forall (P : OptimizationStatistics -> Prop) cfg,
  (forall st t, t <= max_anticipation cfg -> P st -> P (add_anticipation t st)) ->
  forall subs st, P st -> P (snd (anticipation_process subs cfg st)).
Proof.
  intros P cfg Hadd [|c rest] st Hst; [exact Hst|]. unfold anticipation_process. apply anticipation_loop_stats; assumption.
Qed.

Lemma apply_all_fixes_stats : forall (P : OptimizationStatistics -> Prop),
  (forall st, P st -> P (incr_min_duration_fixes st)) ->
  (forall st, P st -> P (incr_gap_fixes st)) ->
  (forall st, P st -> P (incr_chronology_fixes st)) ->
  forall c p cfg st b, P st -> P (snd (apply_all_fixes c p cfg st b)).
Proof.
  intros P H1 H2 H3 c p cfg st b Hst. unfold apply_all_fixes, fix_minimum_duration.
  assert (Hd : P (snd (if Qle_bool (min_duration cfg) (duration c) then (c, st)
                       else (with_end_time c (start_time c + min_duration cfg),
                             incr_min_duration_fixes st)))) by (split_if; simpl; auto).
  destruct (if Qle_bool _ _ then _ else _) as [f1 st1]. simpl in Hd.
  assert (Hg : P (snd (if negb b then fix_minimum_gap f1 p cfg st1 else (f1, st1)))).
  { destruct b; simpl; [exact Hd|]. unfold fix_minimum_gap.
    destruct p; [repeat split_if|]; simpl; auto. }
  destruct (if negb b then _ else _) as [f2 st2]. simpl in Hg.
  repeat split_if; simpl; auto.
Qed.

Lemma validate_loop_stats : forall (P : OptimizationStatistics -> Prop),
  (forall st, P st -> P (incr_min_duration_fixes st)) ->
  (forall st, P st -> P (incr_gap_fixes st)) ->
  (forall st, P st -> P (incr_chronology_fixes st)) ->
  (forall st, P st -> P (incr_invalid_removed st)) ->
  forall cfg allowed subs i acc st, P st -> P (snd (validate_loop cfg allowed i subs acc st)).
Proof.
  intros P H1 H2 H3 H4 cfg allowed subs. induction subs as [|c rest IH]; intros i acc st Hst;
    simpl; [exact Hst|].
  pose proof (apply_all_fixes_stats P H1 H2 H3 c (hd_error acc) cfg st
                (allowed_lookup allowed (List.length acc) i) Hst) as Ha.
  destruct (apply_all_fixes _ _ _ _ _) as [x st1]. simpl in Ha.
  split_if; apply IH; auto.
Qed.

Lemma validator_process_stats : forall (P : OptimizationStatistics -> Prop),
  (forall st, P st -> P (incr_min_duration_fixes st)) ->
  (forall st, P st -> P (incr_gap_fixes st)) ->
  (forall st, P st -> P (incr_chronology_fixes st)) ->
  (forall st, P st -> P (incr_invalid_removed st)) ->
  forall subs cfg st ov, P st -> P (snd (validator_process subs cfg st ov)).
Proof.
  intros P H1 H2 H3 H4 [|c rest] cfg st ov Hst; [exact Hst|].
  unfold validator_process, validate_and_fix. apply validate_loop_stats; assumption.
Qed.

Lemma pipeline_stats : forall (P : OptimizationStatistics -> Prop) cfg,
  (forall st c, 0 <= c -> P st -> P (add_duration_change c st)) ->
  (forall st t, P st -> P (add_rebalancing_transfer t st)) ->
  (forall st t, t <= max_anticipation cfg -> P st -> P (add_anticipation t st)) ->
  (forall st, P st -> P (incr_min_duration_fixes st)) ->
  (forall st, P st -> P (incr_gap_fixes st)) ->
  (forall st, P st -> P (incr_chronology_fixes st)) ->
  (forall st, P st -> P (incr_invalid_removed st)) ->
  forall subs st, P st -> P (snd (_apply_optimization_pipeline subs cfg st)).
Proof.
  intros P cfg Hd Hr Ha H1 H2 H3 H4 subs st Hst.
  unfold _apply_optimization_pipeline, phase1.
  pose proof (duration_process_stats P cfg None Hd subs st Hst) as S1.
  destruct (duration_process _ _ _ _) as [v1 st1].
  pose proof (rebalance_process_stats P cfg Hr v1 st1 S1) as S2.
  destruct (rebalance_process _ _ _) as [v2 st2].
  pose proof (anticipation_process_stats P cfg Ha v2 st2 S2) as S3.
  destruct (anticipation_process _ _ _) as [v3 st3].
  apply validator_process_stats; assumption.
Qed.

Lemma stats_consistent_new : forall cfg t, stats_consistent cfg (new_stats t).
Proof. intros cfg t. repeat split; try constructor; reflexivity. Qed.


Lemma stats_consistent_incr : forall cfg,
  (forall st, stats_consistent cfg st -> stats_consistent cfg (incr_min_duration_fixes st)) /\
  (forall st, stats_consistent cfg st -> stats_consistent cfg (incr_gap_fixes st)) /\
  (forall st, stats_consistent cfg st -> stats_consistent cfg (incr_chronology_fixes st)) /\
  (forall st, stats_consistent cfg st -> stats_consistent cfg (incr_invalid_removed st)).
Proof.
  intros cfg. split; [|split; [|split]]; intros []; unfold stats_consistent; simpl; tauto.
Qed.

Lemma stats_consistent_add : forall cfg,
  (forall st c, 0 <= c -> stats_consistent cfg st -> stats_consistent cfg (add_duration_change c st)) /\
  (forall st t, stats_consistent cfg st -> stats_consistent cfg (add_rebalancing_transfer t st)) /\
  (forall st t, t <= max_anticipation cfg -> stats_consistent cfg st ->
                stats_consistent cfg (add_anticipation t st)).
Proof.
  intros cfg. split; [|split].
  - intros st c Hc Hs. unfold add_duration_change. split_if; [|exact Hs]. qbool.
    rewrite Qabs_pos in E by exact Hc.
    destruct st; unfold stats_consistent in *; simpl in *.
    destruct Hs as (A1 & A2 & A3 & Hrest).
    rewrite length_app, py_sum_snoc, A1, A2. simpl. repeat split; try tauto.
    + lia.
    + apply Forall_app; split; [exact A3 | constructor; [exact E | constructor]].
  - intros st t Hs. unfold add_rebalancing_transfer. split_if; [|exact Hs]. qbool.
    destruct st; unfold stats_consistent in *; simpl in *.
    destruct Hs as (A1 & A2 & A3 & B1 & B2 & B3 & Hrest).
    rewrite length_app, py_sum_snoc, B1, B2. simpl. repeat split; try tauto.
    + lia.
    + apply Forall_app; split; [exact B3 | constructor; [exact E | constructor]].
  - intros st t Ht Hs. unfold add_anticipation. split_if; [|exact Hs]. qbool.
    destruct st; unfold stats_consistent in *; simpl in *.
    destruct Hs as (A1 & A2 & A3 & B1 & B2 & B3 & C1 & C2 & C3).
    rewrite length_app, py_sum_snoc, C1, C2. simpl. repeat split; try tauto.
    + lia.
    + apply Forall_app; split; [exact C3 | constructor; [split; assumption | constructor]].
Qed.

Lemma stats_frame_merged : forall P : nat -> Prop,
  (forall st c, P (merged_subtitles st) -> P (merged_subtitles (add_duration_change c st))) /\
  (forall st t, P (merged_subtitles st) -> P (merged_subtitles (add_rebalancing_transfer t st))) /\
  (forall st t, P (merged_subtitles st) -> P (merged_subtitles (add_anticipation t st))) /\
  (forall st, P (merged_subtitles st) -> P (merged_subtitles (incr_min_duration_fixes st))) /\
  (forall st, P (merged_subtitles st) -> P (merged_subtitles (incr_gap_fixes st))) /\
  (forall st, P (merged_subtitles st) -> P (merged_subtitles (incr_chronology_fixes st))) /\
  (forall st, P (merged_subtitles st) -> P (merged_subtitles (incr_invalid_removed st))).
Proof.
  intros P. split; [|split; [|split; [|split; [|split; [|split]]]]]; intros [] *;
    unfold add_duration_change, add_rebalancing_transfer, add_anticipation;
    try split_if; simpl; auto.
Qed.

Lemma optimize_stats_invariant : forall subs cfg track t0 t1,
  let r := optimize subs cfg track t0 t1 in
  let st := statistics r in
  stats_consistent cfg st /\ merged_subtitles st = 0%nat /\
  original_subtitle_count st = List.length subs /\
  final_subtitle_count st = List.length (subtitles r).
Proof.
  intros subs cfg track t0 t1 r st. unfold st, r, optimize.
  destruct subs as [|c rest].
  - simpl. split; [apply stats_consistent_new|]. repeat split.
  - set (st0 := start_timing t0 _).
    destruct (stats_consistent_add cfg) as (Hd & Hr & Ha).
    destruct (stats_consistent_incr cfg) as (H1 & H2 & H3 & H4).
    assert (I0 : stats_consistent cfg st0 /\ merged_subtitles st0 = 0%nat).
    { split; [exact (stats_consistent_new cfg track) | reflexivity]. }
    destruct (stats_frame_merged (fun m => m = 0%nat)) as (M1 & M2 & M3 & M4 & M5 & M6 & M7).
    cbv beta in M1, M2, M3, M4, M5, M6, M7.
    assert (I1 : stats_consistent cfg (snd (_apply_optimization_pipeline (c :: rest) cfg st0)) /\
                 merged_subtitles (snd (_apply_optimization_pipeline (c :: rest) cfg st0)) = 0%nat).
    { apply (pipeline_stats (fun s => stats_consistent cfg s /\ merged_subtitles s = 0%nat));
        [intros s x Hx [Hs Hm]; split; auto | intros s x [Hs Hm]; split; auto
        | intros s x Hx [Hs Hm]; split; auto | intros s [Hs Hm]; split; auto ..| exact I0]. }
    destruct I1 as [P1 P2].
    destruct (_apply_optimization_pipeline _ _ _) as [out st1]. simpl in P1, P2 |- *.
    unfold stop_timing. destruct st1. simpl in *.
    match goal with |- context [match ?o with Some _ => _ | None => _ end] => destruct o end;
      unfold stats_consistent in *; simpl in *; repeat split; tauto.
Qed.

(** X12: After [optimize], every statistics counter is the length of its
    list and every total the sum of its list, each recorded duration change
    and transfer exceeds 0.01, each anticipation lies in
    [(0.01, max_anticipation]], nothing is counted as merged, and the
    original and final counts are the lengths of input and output. *)
Theorem optimize_statistics_consistent : forall subs cfg track t0 t1,
  let r := optimize subs cfg track t0 t1 in
  let st := statistics r in
  stats_consistent cfg st /\ merged_subtitles st = 0%nat /\
  original_subtitle_count st = List.length subs /\
  final_subtitle_count st = List.length (subtitles r).
Proof. exact optimize_stats_invariant. Qed.


(** ** Further properties: statistics.py: averages *)

Lemma py_sum_bounds : forall (lo hi : Q) l,
  Forall (fun x => lo <= x <= hi) l ->
  lo * inject_Z (Z.of_nat (List.length l)) <= py_sum l <= hi * inject_Z (Z.of_nat (List.length l)).
Proof.
  intros lo hi l H. induction H as [|x l [Hx1 Hx2] _ IH].
  - cbn [List.length]. change (inject_Z (Z.of_nat 0)) with 0. unfold py_sum. simpl. lra.
  - rewrite py_sum_cons. cbn [List.length]. rewrite inject_nat_S. lra.
Qed.

Lemma py_sum_lower_strict : forall (lo : Q) l,
  Forall (fun x => lo < x) l -> l <> [] ->
  lo * inject_Z (Z.of_nat (List.length l)) < py_sum l.
Proof.
  intros lo l H. induction H as [|x l Hx Hl IH]; intros Hne; [congruence|].
  rewrite py_sum_cons. cbn [List.length]. rewrite inject_nat_S.
  destruct l as [|y l].
  - cbn [List.length]. change (inject_Z (Z.of_nat 0)) with 0. unfold py_sum. simpl. lra.
  - assert (Hy : y :: l <> []) by discriminate. specialize (IH Hy). lra.
Qed.

Lemma Forall_ne_length : forall {A} (l : list A), (0 < List.length l)%nat -> l <> [].
Proof. intros A [|x l] H; simpl in H; [lia | discriminate]. Qed.

Lemma avg_lower : forall (lo : Q) l,
  Forall (fun x => lo < x) l -> (0 < List.length l)%nat ->
  lo < py_sum l / inject_Z (Z.of_nat (List.length l)).
Proof.
  intros lo l H Hn. apply Qlt_shift_div_l; [apply inject_nat_pos; exact Hn|].
  apply py_sum_lower_strict; [exact H | apply Forall_ne_length; exact Hn].
Qed.

Lemma avg_upper : forall (lo hi : Q) l,
  Forall (fun x => lo <= x <= hi) l -> (0 < List.length l)%nat ->
  lo <= py_sum l / inject_Z (Z.of_nat (List.length l)) <= hi.
Proof.
  intros lo hi l H Hn. pose proof (inject_nat_pos _ Hn) as Hp.
  destruct (py_sum_bounds lo hi l H) as [H1 H2]. split.
  - apply Qle_shift_div_l; [exact Hp | exact H1].
  - apply Qle_shift_div_r; [exact Hp | exact H2].
Qed.

(** X13: After [optimize], [avg_duration_change] exceeds 0.01 when an
    adjustment was recorded, and [avg_anticipation] lies in
    [(0.01, max_anticipation]] when an anticipation was recorded. *)
Theorem optimize_average_bounds : forall subs cfg track t0 t1,
  let st := statistics (optimize subs cfg track t0 t1) in
  ((0 < duration_adjustments st)%nat -> 1#100 < avg_duration_change st) /\
  ((0 < anticipated_subtitles st)%nat ->
     1#100 < avg_anticipation st <= max_anticipation cfg).
Proof.
  intros subs cfg track t0 t1 st.
  destruct (optimize_stats_invariant subs cfg track t0 t1) as [Hc _].
  fold st in Hc. destruct Hc as (A1 & A2 & A3 & _ & _ & _ & C1 & C2 & C3).
  split; intros Hpos.
  - unfold avg_duration_change. destruct (Nat.eqb_spec (duration_adjustments st) 0); [lia|].
    rewrite A2, A1. apply avg_lower; [exact A3 | lia].
  - unfold avg_anticipation. destruct (Nat.eqb_spec (anticipated_subtitles st) 0); [lia|].
    rewrite C2, C1. split.
    + apply avg_lower; [|lia]. eapply Forall_impl; [|exact C3]. intros x Hx; apply Hx.
    + apply (avg_upper (1#100)); [|lia]. eapply Forall_impl; [|exact C3].
      intros x Hx. split; [apply Qlt_le_weak|]; apply Hx.
Qed.

(** ** Further properties: engine.py: removed cues *)

Lemma invalid_removed_frame : forall k,
  let P := fun s => invalid_removed s = k in
  (forall st c, 0 <= c -> P st -> P (add_duration_change c st)) /\
  (forall st t, P st -> P (add_rebalancing_transfer t st)) /\
  (forall st t, P st -> P (add_anticipation t st)) /\
  (forall st, P st -> P (incr_min_duration_fixes st)) /\
  (forall st, P st -> P (incr_gap_fixes st)) /\
  (forall st, P st -> P (incr_chronology_fixes st)).
Proof.
  intros k P. unfold P.
  split; [|split; [|split; [|split; [|split]]]]; intros [] *;
    unfold add_duration_change, add_rebalancing_transfer, add_anticipation;
    try split_if; simpl; auto.
Qed.

Lemma validate_loop_count : forall cfg allowed subs i acc st,
  let r := validate_loop cfg allowed i subs acc st in
  (List.length (fst r) + invalid_removed (snd r) =
   List.length subs + List.length acc + invalid_removed st)%nat.
Proof.
  intros cfg allowed subs. induction subs as [|c rest IH]; intros i acc st; simpl.
  - rewrite length_rev. lia.
  - destruct (invalid_removed_frame (invalid_removed st)) as (_ & _ & _ & F1 & F2 & F3).
    pose proof (apply_all_fixes_stats (fun s => invalid_removed s = invalid_removed st)
                  F1 F2 F3 c (hd_error acc) cfg st
                  (allowed_lookup allowed (List.length acc) i) eq_refl) as Ha.
    destruct (apply_all_fixes _ _ _ _ _) as [x st1]. simpl in Ha.
    split_if.
    + rewrite IH. simpl. lia.
    + rewrite IH. destruct st1; simpl in *. lia.
Qed.

Lemma map_text_length : forall l l', map text l = map text l' -> List.length l = List.length l'.
Proof. intros l l' H. rewrite <- (length_map text l), <- (length_map text l'), H. reflexivity. Qed.

Lemma optimize_stats_frame : forall n m t st,
  invalid_removed (stop_timing t (set_counts n m st)) = invalid_removed st.
Proof.
  intros n m t []. unfold stop_timing. simpl.
  match goal with |- context [match ?o with Some _ => _ | None => _ end] => destruct o end;
    reflexivity.
Qed.

(** X14: The counts of an [optimize] result are the lengths of its input and
    output, no cue is added, and [subtitles_removed] equals the
    [invalid_removed] counter. *)
Theorem optimize_removed_count : forall subs cfg track t0 t1,
  let r := optimize subs cfg track t0 t1 in
  original_count r = List.length subs /\
  final_count r = List.length (subtitles r) /\
  (final_count r <= original_count r)%nat /\
  subtitles_removed r = Z.of_nat (invalid_removed (statistics r)).
Proof.
  intros subs cfg track t0 t1 r. unfold r, optimize.
  destruct subs as [|c rest]; [simpl; repeat split; lia|].
  set (st0 := start_timing t0 _).
  destruct (invalid_removed_frame (invalid_removed st0)) as (F1 & F2 & F3 & F4 & F5 & F6).
  unfold _apply_optimization_pipeline, phase1.
  pose proof (duration_process_texts (c :: rest) cfg st0 None) as L1.
  pose proof (duration_process_stats _ cfg None F1 (c :: rest) st0 eq_refl) as S1.
  destruct (duration_process _ _ _ _) as [v1 st1]. simpl in L1, S1.
  pose proof (rebalance_process_texts v1 cfg st1) as L2.
  pose proof (rebalance_process_stats _ cfg F2 v1 st1 S1) as S2.
  destruct (rebalance_process _ _ _) as [v2 st2]. simpl in L2, S2.
  pose proof (anticipation_process_texts v2 cfg st2) as L3.
  pose proof (anticipation_process_stats _ cfg (fun s t _ => F3 s t) v2 st2 S2) as S3.
  destruct (anticipation_process _ _ _) as [v3 st3]. simpl in L3, S3.
  change (text c :: map text rest) with (map text (c :: rest)) in L1.
  apply map_text_length in L1, L2, L3.
  destruct v3 as [|c3 rest3]; [simpl in L3, L2, L1; lia|].
  unfold validator_process, validate_and_fix.
  pose proof (validate_loop_count cfg (_detect_original_overlaps (c :: rest)) (c3 :: rest3) 0%Z [] st3)
    as Hc.
  destruct (validate_loop _ _ _ _ _ _) as [out st4]. simpl in Hc |- *.
  rewrite optimize_stats_frame. rewrite S3 in Hc. unfold st0 in Hc. simpl in Hc.
  cbn [List.length] in *. repeat split; try lia.
  unfold subtitles_removed. cbn [original_count final_count]. lia.
Qed.

(** ** Further properties: engine.py: validity of the output *)

Lemma validate_loop_valid : forall cfg allowed subs i acc st,
  Forall (fun s => validate s = true) acc ->
  Forall (fun s => validate s = true) (fst (validate_loop cfg allowed i subs acc st)).
Proof.
  intros cfg allowed subs. induction subs as [|c rest IH]; intros i acc st Ha; simpl.
  - apply Forall_rev. exact Ha.
  - destruct (apply_all_fixes _ _ _ _ _) as [x st1].
    split_if; apply IH; [constructor|]; assumption.
Qed.

Lemma validate_sequence_loop_invalid_times : forall cfg l prev r,
  Forall (fun s => validate s = true) l ->
  viol_invalid_times (validate_sequence_loop cfg prev l r) = viol_invalid_times r.
Proof.
  intros cfg l. induction l as [|s l IH]; intros prev r Hl; [reflexivity|].
  inversion Hl as [|? ? Hs Hl']; subst. cbn [validate_sequence_loop].
  rewrite IH by exact Hl'. unfold validate_sequence_step.
  destruct prev; cbn; rewrite Hs; cbn; lia.
Qed.

(** X15: Every cue returned by [optimize] passes [Subtitle.validate], so
    [validate_sequence] reports no invalid time range on the output. *)
Theorem optimize_output_valid : forall subs cfg track t0 t1,
  let out := subtitles (optimize subs cfg track t0 t1) in
  Forall (fun s => validate s = true) out /\
  viol_invalid_times (validate_sequence out cfg) = 0%nat.
Proof.
  intros subs cfg track t0 t1 out.
  assert (H : Forall (fun s => validate s = true) out).
  { unfold out, optimize. destruct subs as [|c rest]; [constructor|].
    unfold _apply_optimization_pipeline.
    destruct (phase1 _ _ _) as [v1 st1]. destruct (rebalance_process _ _ _) as [v2 st2].
    destruct (anticipation_process _ _ _) as [v3 st3].
    destruct v3 as [|c3 rest3]; [constructor|].
    unfold validator_process, validate_and_fix.
    pose proof (validate_loop_valid cfg (_detect_original_overlaps (c :: rest)) (c3 :: rest3)
                  0%Z [] st3 (Forall_nil _)) as Hv.
    destruct (validate_loop _ _ _ _ _ _) as [o st4]. exact Hv. }
  split; [exact H|]. unfold validate_sequence.
  rewrite validate_sequence_loop_invalid_times by exact H. reflexivity.
Qed.

(** ** Further properties: engine.py: analyses *)

Lemma fold_min_spec : forall r x,
  let m := fold_left py_min r x in
  (m = x \/ In m r) /\ m <= x /\ Forall (fun y => m <= y) r.
Proof.
  intros r. induction r as [|y r IH]; intros x; simpl.
  - split; [left; reflexivity | split; [lra | constructor]].
  - destruct (IH (py_min x y)) as [[Hm|Hm] [H1 H2]];
      pose proof (py_min_le_l x y); pose proof (py_min_le_r x y).
    + split.
      * assert (Hxy : py_min x y = y \/ py_min x y = x) by (unfold py_min; destruct (Qltb y x); auto).
        destruct Hxy as [E|E]; rewrite E in *; [right; left; symmetry; exact Hm | left; exact Hm].
      * split; [lra|]. constructor; [lra | exact H2].
    + split; [right; right; exact Hm|]. split; [lra|]. constructor; [lra | exact H2].
Qed.

Lemma fold_max_spec : forall r x,
  let m := fold_left py_max r x in
  (m = x \/ In m r) /\ x <= m /\ Forall (fun y => y <= m) r.
Proof.
  intros r. induction r as [|y r IH]; intros x; simpl.
  - split; [left; reflexivity | split; [lra | constructor]].
  - destruct (IH (py_max x y)) as [[Hm|Hm] [H1 H2]];
      pose proof (py_max_ge_l x y); pose proof (py_max_ge_r x y).
    + split.
      * assert (Hxy : py_max x y = y \/ py_max x y = x) by (unfold py_max; destruct (Qltb x y); auto).
        destruct Hxy as [E|E]; rewrite E in *; [right; left; symmetry; exact Hm | left; exact Hm].
      * split; [lra|]. constructor; [lra | exact H2].
    + split; [right; right; exact Hm|]. split; [lra|]. constructor; [lra | exact H2].
Qed.

Lemma seq_stats_spec : forall xs,
  (seq_stats xs = None <-> xs = []) /\
  (forall s, seq_stats xs = Some s ->
     In (ss_min s) xs /\ In (ss_max s) xs /\
     Forall (fun x => ss_min s <= x <= ss_max s) xs /\
     ss_min s <= ss_avg s <= ss_max s).
Proof.
  intros [|x r]; unfold seq_stats; simpl.
  - split; [tauto | discriminate].
  - split; [split; discriminate|]. intros s Hs. injection Hs as <-. simpl.
    destruct (fold_min_spec r x) as [Hm1 [Hm2 Hm3]].
    destruct (fold_max_spec r x) as [HM1 [HM2 HM3]].
    assert (Hall : Forall (fun y => fold_left py_min r x <= y <= fold_left py_max r x) (x :: r)).
    { constructor; [lra|]. apply Forall_forall. intros y Hy.
      rewrite Forall_forall in Hm3, HM3. split; [apply Hm3 | apply HM3]; exact Hy. }
    split; [destruct Hm1 as [->|]; [left|right] ; auto|].
    split; [destruct HM1 as [->|]; [left|right]; auto|].
    split; [exact Hall|]. apply avg_upper; [exact Hall | simpl; lia].
Qed.

Lemma count_if_disjoint : forall {A} (p q : A -> bool) l,
  (forall x, p x = true -> q x = false) ->
  (count_if p l + count_if q l <= List.length l)%nat.
Proof.
  intros A p q l H. unfold count_if. induction l as [|x l IH]; simpl; [lia|].
  destruct (p x) eqn:Ep; [rewrite (H x Ep)|destruct (q x)]; simpl; lia.
Qed.

(** X16: [_analyze_durations] raises exactly on an empty list; otherwise
    min and max are durations of cues bounding all of them, the average lies
    between, and with [min_duration <= max_duration] the cues below and above
    the limits are at most all cues. *)
Theorem analyze_durations_spec : forall subs cfg,
  (_analyze_durations subs cfg = None <-> subs = []) /\
  (forall a, _analyze_durations subs cfg = Some a ->
     let s := dur_stats a in
     In (ss_min s) (map duration subs) /\ In (ss_max s) (map duration subs) /\
     Forall (fun d => ss_min s <= d <= ss_max s) (map duration subs) /\
     ss_min s <= ss_avg s <= ss_max s /\
     (min_duration cfg <= max_duration cfg ->
        (dur_below_min a + dur_above_max a <= List.length subs)%nat)).
Proof.
  intros subs cfg. unfold _analyze_durations.
  destruct (seq_stats_spec (map duration subs)) as [HN HS].
  destruct (seq_stats (map duration subs)) as [s|] eqn:E.
  - split; [split; [discriminate|intros ->; discriminate]|].
    intros a Ha. injection Ha as <-. simpl.
    destruct (HS s eq_refl) as (H1 & H2 & H3 & H4).
    repeat split; try assumption; try apply H4.
    intros Hle. rewrite <- (length_map duration subs). apply count_if_disjoint.
    intros d Hd. qbool. apply Qltb_false. lra.
  - split; [split; [intros _; destruct subs; [reflexivity|]; destruct (proj1 HN eq_refl)|]|].
    + discriminate.
    + reflexivity.
    + discriminate.
Qed.

Lemma count_if_pos : forall {A} (p : A -> bool) l,
  (0 < count_if p l)%nat <-> exists x, In x l /\ p x = true.
Proof.
  intros A p l. unfold count_if. split.
  - intros H. destruct (filter p l) as [|x r] eqn:E; simpl in H; [lia|].
    exists x. apply (filter_In p x l). rewrite E. left. reflexivity.
  - intros [x Hx]. apply filter_In in Hx.
    destruct (filter p l); [destruct Hx | simpl; lia].
Qed.

Lemma gaps_loop_cons2 : forall c n r,
  gaps_loop (c :: n :: r) =
  let g := start_time n - end_time c in
  let (gs, ov) := gaps_loop (n :: r) in
  (g :: gs, if Qltb g 0 then S ov else ov).
Proof. reflexivity. Qed.

Lemma gaps_loop_spec : forall l k,
  List.length (fst (gaps_loop l)) = (List.length l - 1)%nat /\
  snd (gaps_loop l) = count_if (fun g => Qltb g 0) (fst (gaps_loop l)) /\
  snd (gaps_loop l) = List.length (detect_overlaps_from k l).
Proof.
  intros l. induction l as [|c l IH]; intros k; [repeat split|].
  destruct l as [|n r]; [repeat split|].
  rewrite gaps_loop_cons2. destruct (IH (k + 1)%Z) as (H1 & H2 & H3).
  destruct (gaps_loop (n :: r)) as [gs ov]. cbn [fst snd] in H1, H2, H3 |- *.
  rewrite detect_overlaps_from_cons2, length_app.
  unfold count_if in *. cbn [filter List.length] in *.
  rewrite Qltb_gap_neg.
  destruct (Qltb (start_time n) (end_time c)); cbn [List.length]; repeat split; lia.
Qed.

(** X17: [_analyze_gaps] returns its error for fewer than two cues;
    otherwise its overlap and negative-gap counts are the pairs
    [detect_overlaps] finds, small and negative gaps are at most [len - 1],
    the average lies between min and max, and there is an overlap exactly
    when the minimum gap is negative. *)
Theorem analyze_gaps_spec : forall subs cfg,
  ((List.length subs < 2)%nat -> _analyze_gaps subs cfg = inl tt) /\
  ((2 <= List.length subs)%nat ->
   exists g, _analyze_gaps subs cfg = inr (Some g) /\
     gap_overlaps g = List.length (detect_overlaps subs) /\
     gap_negative_gaps g = gap_overlaps g /\
     (gap_below_min_gap g + gap_negative_gaps g <= List.length subs - 1)%nat /\
     ss_min (gap_stats g) <= ss_avg (gap_stats g) <= ss_max (gap_stats g) /\
     ((0 < gap_overlaps g)%nat <-> ss_min (gap_stats g) < 0)).
Proof.
  intros subs cfg. unfold _analyze_gaps. split.
  - intros H. apply Nat.ltb_lt in H. rewrite H. reflexivity.
  - intros H. assert (Hb : (List.length subs <? 2)%nat = false) by (apply Nat.ltb_ge; exact H).
    rewrite Hb. destruct (gaps_loop_spec subs 0%Z) as (L1 & L2 & L3).
    rewrite detect_overlaps_eq. unfold _detect_original_overlaps.
    destruct (gaps_loop subs) as [gs ov]. simpl in L1, L2, L3.
    destruct (seq_stats_spec gs) as [HN HS].
    destruct (seq_stats gs) as [s|] eqn:E.
    + eexists. split; [reflexivity|]. simpl.
      destruct (HS s eq_refl) as (S1 & S2 & S3 & S4).
      split; [exact L3|]. split; [symmetry; exact L2|]. split.
      { rewrite <- L1. apply count_if_disjoint. intros x Hx.
        apply andb_true_iff in Hx as [Hx1 _]. qbool. apply Qltb_false. exact Hx1. }
      split; [exact S4|]. rewrite L2, count_if_pos. split.
      * intros [x [Hx Hn]]. qbool. rewrite Forall_forall in S3.
        destruct (S3 x Hx). lra.
      * intros Hm. exists (ss_min s). split; [exact S1 | apply Qltb_true; exact Hm].
    + exfalso. pose proof (proj1 HN eq_refl) as E0. subst gs. simpl in L1. lia.
Qed.

Lemma speed_nonneg : forall n d, 0 < d -> 0 <= inject_Z (Z.of_nat n) / d.
Proof.
  intros n d Hd. apply Qle_shift_div_l; [exact Hd|]. rewrite Qmult_0_l.
  change 0 with (inject_Z 0). rewrite <- Zle_Qle. lia.
Qed.

Lemma filter_nonpositive : forall l, Forall (fun s => duration s <= 0) l ->
  filter (fun c => Qltb 0 (duration c)) l = [].
Proof.
  intros l Hall. induction Hall as [|c l Hc _ IHl]; [reflexivity|]. simpl.
  rewrite (proj2 (Qltb_false _ _) Hc). exact IHl.
Qed.

(** X18: [_analyze_reading_speeds] returns its error exactly when no cue has
    a positive duration; otherwise [0 <= min <= avg <= max] and the speeds
    above and below the target are at most the cues with positive duration. *)
Theorem analyze_reading_speeds_spec : forall subs cfg,
  (_analyze_reading_speeds subs cfg = inl tt <-> Forall (fun s => duration s <= 0) subs) /\
  (forall a, _analyze_reading_speeds subs cfg = inr a ->
     let s := speed_stats a in
     0 <= ss_min s <= ss_avg s /\ ss_avg s <= ss_max s /\
     (speed_above_target a + speed_below_target a <=
        count_if (fun c => Qltb 0 (duration c)) subs)%nat).
Proof.
  intros subs cfg. unfold _analyze_reading_speeds.
  assert (Hpos : Forall (fun v => 0 <= v) (reading_speeds subs)).
  { unfold reading_speeds. apply Forall_forall. intros v Hv.
    apply in_map_iff in Hv as [c [<- Hc]]. apply filter_In in Hc as [_ Hc].
    apply speed_nonneg. qbool. exact Hc. }
  assert (Hlen : List.length (reading_speeds subs) = count_if (fun c => Qltb 0 (duration c)) subs).
  { unfold reading_speeds, count_if. apply length_map. }
  destruct (seq_stats_spec (reading_speeds subs)) as [HN HS].
  destruct (seq_stats (reading_speeds subs)) as [s|] eqn:E.
  - split.
    + split; [discriminate|]. intros Hall. exfalso.
      assert (Hnil : reading_speeds subs = []).
      { unfold reading_speeds. rewrite filter_nonpositive by exact Hall. reflexivity. }
      apply (proj2 HN) in Hnil. congruence.
    + intros a Ha. injection Ha as <-. simpl.
      destruct (HS s eq_refl) as (S1 & S2 & S3 & S4).
      rewrite Forall_forall in Hpos. pose proof (Hpos _ S1).
      split; [split; [assumption | apply S4]|]. split; [apply S4|].
      rewrite <- Hlen. apply count_if_disjoint. intros v Hv. qbool. apply Qltb_false. lra.
  - split; [|discriminate]. split; [intros _|reflexivity].
    pose proof (proj1 HN eq_refl) as E0. unfold reading_speeds in E0.
    apply map_eq_nil in E0. apply Forall_forall. intros c Hc.
    destruct (Qltb 0 (duration c)) eqn:Ec.
    + assert (In c (filter (fun c => Qltb 0 (duration c)) subs)) as Hin
        by (apply filter_In; split; assumption).
      rewrite E0 in Hin. destruct Hin.
    + qbool. exact Ec.
Qed.

(** ** Further properties: engine.py: preview_optimization *)

Lemma chain_firstn : forall {A} (R : A -> A -> Prop) l k, chain R l -> chain R (firstn k l).
Proof.
  intros A R l. induction l as [|x l IH]; intros k H; destruct k as [|k]; simpl; try exact I.
  destruct l as [|y l]; destruct k as [|k]; simpl in *; try exact I.
  destruct H as [Hxy H]. split; [exact Hxy|]. exact (IH (S k) H).
Qed.

Lemma chain_mul_seq : forall step a m, (1 <= step)%nat ->
  chain lt (map (fun k => (k * step)%nat) (seq a m)).
Proof.
  intros step a m Hs. revert a. induction m as [|m IH]; intros a; simpl; [exact I|].
  destruct m as [|m]; simpl; [exact I|].
  split; [nia|]. exact (IH (S a)).
Qed.

Lemma range_step_lt : forall n step k, (1 <= step)%nat ->
  In k (py_range_step n step) -> (k < n)%nat.
Proof.
  intros n step k Hs Hk. unfold py_range_step in Hk.
  apply in_map_iff in Hk as [j [<- Hj]]. apply in_seq in Hj as [_ Hj].
  simpl in Hj. pose proof (Nat.Div0.mul_div_le (n + step - 1) step).
  nia.
Qed.

Lemma in_firstn : forall {A} (x : A) k l, In x (firstn k l) -> In x l.
Proof.
  intros A x k l H. rewrite <- (firstn_skipn k l). apply in_or_app. left. exact H.
Qed.

Lemma sample_step_pos : forall n sample_size,
  (1 <= Z.to_nat (Z.max 1 (Z.of_nat n / sample_size)))%nat.
Proof. intros n k. lia. Qed.

Lemma sample_indices_props : forall n sample_size,
  (sample_size = 0%Z -> sample_indices n sample_size = None) /\
  ((1 <= sample_size)%Z ->
   exists idx, sample_indices n sample_size = Some idx /\
     (List.length idx <= Z.to_nat sample_size)%nat /\
     Forall (fun i => (i < n)%nat) idx /\
     chain lt idx /\
     ((0 < n)%nat -> hd_error idx = Some 0%nat)).
Proof.
  intros n k. unfold sample_indices. split.
  - intros ->. reflexivity.
  - intros Hk. assert (Hk0 : (k =? 0)%Z = false) by (apply Z.eqb_neq; lia). rewrite Hk0.
    set (step := Z.to_nat (Z.max 1 (Z.of_nat n / k))).
    assert (Hs : (1 <= step)%nat) by apply sample_step_pos.
    unfold py_slice_upto. assert (Hk1 : (0 <=? k)%Z = true) by (apply Z.leb_le; lia).
    rewrite Hk1. eexists. split; [reflexivity|]. split; [|split; [|split]].
    + rewrite length_firstn. lia.
    + apply Forall_forall. intros i Hi. apply in_firstn in Hi.
      exact (range_step_lt n step i Hs Hi).
    + apply chain_firstn. apply chain_mul_seq. exact Hs.
    + intros Hn. unfold py_range_step.
      destruct ((n + step - 1) / step)%nat eqn:Eq.
      * exfalso. apply Nat.div_small_iff in Eq; lia.
      * destruct (Z.to_nat k) eqn:Ek; [lia|]. reflexivity.
Qed.

(** X19: The sample of [preview_optimization] raises for a sample size of
    0; for a size [>= 1] it has at most that many indices, all below [n],
    strictly increasing, and starting at 0 when [n > 0]. *)
Theorem sample_indices_spec : forall n sample_size,
  (sample_size = 0%Z -> sample_indices n sample_size = None) /\
  ((1 <= sample_size)%Z ->
   exists idx, sample_indices n sample_size = Some idx /\
     (List.length idx <= Z.to_nat sample_size)%nat /\
     Forall (fun i => (i < n)%nat) idx /\
     chain lt idx /\
     ((0 < n)%nat -> hd_error idx = Some 0%nat)).
Proof. exact sample_indices_props. Qed.


Lemma pipeline_texts_subseq : forall subs cfg,
  subseq (map text (pipeline subs cfg)) (map text subs).
Proof.
  intros subs cfg. unfold pipeline, _apply_optimization_pipeline, phase1.
  pose proof (duration_process_texts subs cfg (new_stats 0) None) as H1.
  destruct (duration_process _ _ _ _) as [v1 st1]. simpl in H1.
  pose proof (rebalance_process_texts v1 cfg st1) as H2.
  destruct (rebalance_process _ _ _) as [v2 st2]. simpl in H2.
  pose proof (anticipation_process_texts v2 cfg st2) as H3.
  destruct (anticipation_process _ _ _) as [v3 st3]. simpl in H3.
  destruct v3 as [|c rest]; simpl; [apply subseq_nil_l|].
  unfold validate_and_fix.
  destruct (validate_loop_texts cfg (_detect_original_overlaps subs) (c :: rest) 0%Z [] st3)
    as [l [Hl Hs]].
  rewrite Hl. simpl. rewrite <- H1, <- H2, <- H3. exact Hs.
Qed.

Lemma subseq_In : forall {A} (l1 l2 : list A) x, subseq l1 l2 -> In x l1 -> In x l2.
Proof.
  intros A l1 l2 x H. induction H as [|y l1 l2 _ IH|y l1 l2 _ IH]; simpl; auto.
  intros [->|Hx]; [left; reflexivity | right; auto].
Qed.

Lemma preview_entry_spec : forall subs cfg i e,
  preview_entry subs cfg i = Some e ->
  let '(j, o, x) := e in
  j = i /\ nth_error subs i = Some o /\
  exists k, (i - 1 <= k <= i + 1)%nat /\ nth_error (map text subs) k = Some (text x).
Proof.
  intros subs cfg i e. unfold preview_entry.
  destruct (nth_error subs i) as [o|] eqn:Eo; [|discriminate].
  set (cs := (i - 1)%nat). set (ce := Nat.min (List.length subs) (i + 2)).
  set (ctx := firstn (ce - cs) (skipn cs subs)).
  destruct (nth_error (fst (_apply_optimization_pipeline ctx cfg (new_stats 0))) (i - cs))
    as [x|] eqn:Ex; [|discriminate].
  intros H. injection H as <-. split; [reflexivity|]. split; [reflexivity|].
  assert (Hin : In (text x) (map text ctx)).
  { apply (subseq_In _ _ _ (pipeline_texts_subseq ctx cfg)).
    apply in_map. apply nth_error_In with (n := (i - cs)%nat). exact Ex. }
  apply in_map_iff in Hin as [y [Hy Hin]].
  apply In_nth_error in Hin as [m Hm].
  assert (Hml : (m < ce - cs)%nat).
  { pose proof (nth_error_Some ctx m) as [Hs _]. rewrite Hm in Hs.
    specialize (Hs ltac:(discriminate)). unfold ctx in Hs. rewrite length_firstn in Hs. lia. }
  exists (cs + m)%nat. split; [unfold ce, cs in *; lia|].
  rewrite nth_error_map. unfold ctx in Hm.
  rewrite nth_error_firstn in Hm. destruct (m <? ce - cs)%nat; [|discriminate].
  rewrite nth_error_skipn in Hm. rewrite ?(Nat.add_comm m cs) in Hm. rewrite Hm. simpl. rewrite Hy. reflexivity.
Qed.

Lemma preview_flat_map_spec : forall subs cfg idx,
  let ps := flat_map (fun i => match preview_entry subs cfg i with
                               | Some e => [e] | None => [] end) idx in
  (List.length ps <= List.length idx)%nat /\
  subseq (map (fun e => fst (fst e)) ps) idx /\
  Forall (fun e => let '(i, o, x) := e in
            nth_error subs i = Some o /\
            exists j, (i - 1 <= j <= i + 1)%nat /\ nth_error (map text subs) j = Some (text x)) ps.
Proof.
  intros subs cfg idx. induction idx as [|i idx [IH1 [IH2 IH3]]]; simpl.
  - split; [lia|]. split; constructor.
  - pose proof (preview_entry_spec subs cfg i) as He.
    destruct (preview_entry subs cfg i) as [[[j o] x]|]; simpl.
    + destruct (He _ eq_refl) as [-> [Ho Hx]].
      split; [lia|]. split; [constructor; exact IH2|].
      constructor; [split; assumption | exact IH3].
    + split; [lia|]. split; [constructor; exact IH2 | exact IH3].
Qed.

(** X20: On a non-empty list [preview_optimization] raises for a sample size
    of 0; for a sample size [>= 1] it returns at most that many previews, at
    a subsequence of the sampled indices, each pairing [subtitles[i]] with an
    optimized cue carrying the text of [subtitles[j]] for some
    [i - 1 <= j <= i + 1]. *)
Theorem preview_optimization_spec : forall subs cfg sample_size,
  subs <> [] ->
  (sample_size = 0%Z -> preview_optimization subs cfg sample_size = None) /\
  ((1 <= sample_size)%Z ->
   exists idx ps,
     sample_indices (List.length subs) sample_size = Some idx /\
     preview_optimization subs cfg sample_size =
       Some (Preview (List.length ps) (List.length subs) ps) /\
     (List.length ps <= Z.to_nat sample_size)%nat /\
     subseq (map (fun e => fst (fst e)) ps) idx /\
     Forall (fun e => let '(i, o, x) := e in
               nth_error subs i = Some o /\
               exists j, (i - 1 <= j <= i + 1)%nat /\
                 nth_error (map text subs) j = Some (text x)) ps).
Proof.
  intros subs cfg k Hne. unfold preview_optimization.
  destruct subs as [|c rest]; [congruence|]. split.
  - intros ->. reflexivity.
  - intros Hk. destruct (proj2 (sample_indices_props (List.length (c :: rest)) k) Hk)
      as [idx [Hi [Hl _]]].
    rewrite Hi. destruct (preview_flat_map_spec (c :: rest) cfg idx) as (P1 & P2 & P3).
    eexists idx, _. split; [reflexivity|]. split; [reflexivity|].
    split; [lia|]. split; assumption.
Qed.

(** ** Further properties: SubtitleText: char_count *)

Lemma after_char_length : forall close l r,
  after_char close l = Some r -> (List.length r < List.length l)%nat.
Proof.
  intros close l. induction l as [|c l IH]; intros r H; simpl in H; [discriminate|].
  destruct (Ascii.eqb c close); [injection H as <-; simpl; lia|].
  specialize (IH r H). simpl. lia.
Qed.

Lemma remove_tags_length : forall fuel op cl l,
  (List.length (remove_tags fuel op cl l) <= List.length l)%nat.
Proof.
  intros fuel. induction fuel as [|f IH]; intros op cl l; simpl; [lia|].
  destruct l as [|c r]; simpl; [lia|].
  destruct (Ascii.eqb c op); [destruct (after_char cl r) as [r'|] eqn:E|]; simpl.
  - apply after_char_length in E. specialize (IH op cl r'). lia.
  - specialize (IH op cl r). lia.
  - specialize (IH op cl r). lia.
Qed.

Lemma remove_tags_no_open : forall fuel op cl l,
  Forall (fun c => c <> op) l -> remove_tags fuel op cl l = l.
Proof.
  intros fuel. induction fuel as [|f IH]; intros op cl l H; simpl; [reflexivity|].
  destruct H as [|c r Hc Hr]; [reflexivity|].
  destruct (Ascii.eqb_spec c op); [contradiction|]. rewrite IH by exact Hr. reflexivity.
Qed.

Lemma drop_while_space_length : forall l,
  (List.length (drop_while_space l) <= List.length l)%nat.
Proof.
  induction l as [|c l IH]; simpl; [lia|]. destruct (is_space c); simpl; lia.
Qed.

Lemma py_strip_length : forall l, (List.length (py_strip l) <= List.length l)%nat.
Proof.
  intros l. unfold py_strip. rewrite length_rev.
  pose proof (drop_while_space_length (rev (drop_while_space l))).
  pose proof (drop_while_space_length l). rewrite length_rev in *. lia.
Qed.

Lemma length_list_ascii_of_string : forall s,
  List.length (list_ascii_of_string s) = String.length s.
Proof. induction s as [|c s IH]; simpl; [reflexivity | rewrite IH; reflexivity]. Qed.

(** X21: [char_count] never exceeds the length of the text, and on a text
    without [<] or [{] it is the length of the stripped text. *)
Theorem char_count_bounds : forall s,
  (char_count s <= String.length (text s))%nat /\
  (Forall (fun c => c <> "<"%char /\ c <> "{"%char) (list_ascii_of_string (text s)) ->
   char_count s = List.length (py_strip (list_ascii_of_string (text s)))).
Proof.
  intros s. unfold char_count. cbv zeta. split.
  - rewrite <- length_list_ascii_of_string.
    set (l := list_ascii_of_string (text s)).
    pose proof (remove_tags_length (List.length l) "<"%char ">"%char l).
    set (l1 := remove_tags (List.length l) "<"%char ">"%char l) in *.
    pose proof (remove_tags_length (List.length l1) "{"%char "}"%char l1).
    pose proof (py_strip_length (remove_tags (List.length l1) "{"%char "}"%char l1)).
    lia.
  - intros H. rewrite (remove_tags_no_open _ "<"%char ">"%char)
      by (eapply Forall_impl; [|exact H]; intros c Hc; apply Hc).
    rewrite (remove_tags_no_open _ "{"%char "}"%char)
      by (eapply Forall_impl; [|exact H]; intros c Hc; apply Hc).
    reflexivity.
Qed.

(** ** Instances of the further properties on concrete inputs *)

Lemma adjust_duration_target_bound_witness :
  min_duration default_config <= max_duration default_config /\
  duration (adjust_duration (sub 0 10 11 "A") (Some (sub 1 12 (62#5) "B")) default_config false)
    <= py_max (calculate_target_duration (sub 0 10 11 "A") (chars_per_sec default_config)
                 (min_duration default_config) (max_duration default_config))
              (duration (sub 0 10 11 "A")).
Proof.
  assert (H : min_duration default_config <= max_duration default_config) by (vm_compute; discriminate).
  split; [exact H|].
  exact (proj1 (proj2 (adjust_duration_target_bound (sub 0 10 11 "A") (Some (sub 1 12 (62#5) "B"))
                         default_config false H))).
Defined.

Lemma adjust_duration_passes_validate_adjustment_witness :
  0 < duration (sub 0 10 11 "A") /\
  validate_adjustment (sub 0 10 11 "A")
    (adjust_duration (sub 0 10 11 "A") (Some (sub 1 12 (62#5) "B")) default_config false)
    (Some (sub 1 12 (62#5) "B")) (min_gap default_config) = true.
Proof.
  assert (H : 0 < duration (sub 0 10 11 "A")) by (vm_compute; reflexivity).
  split; [exact H|].
  apply adjust_duration_passes_validate_adjustment; [exact H|].
  intros n Hn. injection Hn as <-. vm_compute. discriminate.
Defined.

Lemma rebalance_transfer_is_calculated_witness :
  let '(c', n', t) := rebalance_pair (sub 0 0 (1#2) "A") (sub 1 5 10 "B") cfg_wide_short in
  0 < t /\
  t = calculate_transfer_amount (sub 0 0 (1#2) "A") (sub 1 5 10 "B") cfg_wide_short /\
  Rebalancer.estimate_benefit (sub 0 0 (1#2) "A") (sub 1 5 10 "B") t cfg_wide_short == t * (1#2).
Proof.
  destruct (rebalance_pair _ _ _) as [[c' n'] t] eqn:E.
  assert (Ht : 0 < t).
  { pose proof E as E'. vm_compute in E'. injection E' as _ _ Et. rewrite <- Et. reflexivity. }
  split; [exact Ht|].
  exact (rebalance_transfer_is_calculated _ _ _ c' n' t E Ht).
Defined.

Lemma rebalance_estimate_benefit_bounds_witness :
  0 < 1 /\
  -(1 * (1#2)) <= Rebalancer.estimate_benefit (sub 0 0 (1#2) "A") (sub 1 5 10 "B") 1 cfg_wide_short <= 1.
Proof.
  assert (H : 0 < 1) by reflexivity. split; [exact H|].
  exact (proj2 (rebalance_estimate_benefit_bounds (sub 0 0 (1#2) "A") (sub 1 5 10 "B") 1
                  cfg_wide_short) H).
Defined.

Lemma optimal_anticipation_bounds_witness :
  0 <= max_anticipation default_config /\
  0 < calculate_optimal_anticipation (hd (sub 0 0 0 "") ex_anticip) None default_config /\
  Anticipator.estimate_benefit (hd (sub 0 0 0 "") ex_anticip)
    (calculate_optimal_anticipation (hd (sub 0 0 0 "") ex_anticip) None default_config)
    default_config
  == calculate_optimal_anticipation (hd (sub 0 0 0 "") ex_anticip) None default_config.
Proof.
  assert (H : 0 <= max_anticipation default_config) by (vm_compute; discriminate).
  assert (Hp : 0 < calculate_optimal_anticipation (hd (sub 0 0 0 "") ex_anticip) None default_config)
    by (vm_compute; reflexivity).
  split; [exact H|]. split; [exact Hp|].
  exact (proj2 (proj2 (proj2 (optimal_anticipation_bounds (hd (sub 0 0 0 "") ex_anticip) None
                                default_config H) Hp))).
Defined.

Lemma anticipator_estimate_benefit_bounds_witness :
  0 < 1#4 /\
  0 <= Anticipator.estimate_benefit (hd (sub 0 0 0 "") ex_anticip) (1#4) default_config <= 1#4.
Proof.
  assert (H : 0 < 1#4) by reflexivity. split; [exact H|].
  exact (proj2 (anticipator_estimate_benefit_bounds (hd (sub 0 0 0 "") ex_anticip) (1#4)
                  default_config) H).
Defined.

Lemma fix_overlaps_result_witness :
  0 <= min_gap default_config /\
  In (0%Z, 1%Z) (detect_overlaps (fst (fix_overlaps ex_overlap default_config (new_stats 0)))) /\
  exists c n, nth_error ex_overlap 0 = Some c /\ nth_error ex_overlap 1 = Some n /\
    start_time n < end_time c /\
    start_time n - min_gap default_config <= start_time c + min_duration default_config.
Proof.
  assert (H : 0 <= min_gap default_config) by (vm_compute; discriminate).
  assert (Hin : In (0%Z, 1%Z) (detect_overlaps (fst (fix_overlaps ex_overlap default_config (new_stats 0)))))
    by (vm_compute; left; reflexivity).
  split; [exact H|]. split; [exact Hin|].
  exact (proj2 (proj2 (fix_overlaps_result ex_overlap default_config (new_stats 0) H) 0%Z 1%Z Hin)).
Defined.

Lemma validate_sequence_counts_witness :
  0 < min_gap default_config /\
  viol_overlaps (validate_sequence ex_overlap default_config) =
    List.length (detect_overlaps ex_overlap).
Proof.
  assert (H : 0 < min_gap default_config) by (vm_compute; reflexivity).
  split; [exact H|].
  exact (proj1 (proj2 (proj2 (validate_sequence_counts ex_overlap default_config H)))).
Defined.

Lemma optimize_average_bounds_witness :
  (0 < duration_adjustments (statistics (optimize ex_anticip default_config 0 0 1)))%nat /\
  1#100 < avg_duration_change (statistics (optimize ex_anticip default_config 0 0 1)) /\
  (0 < anticipated_subtitles (statistics (optimize ex_anticip default_config 0 0 1)))%nat /\
  1#100 < avg_anticipation (statistics (optimize ex_anticip default_config 0 0 1))
    <= max_anticipation default_config.
Proof.
  destruct (optimize_average_bounds ex_anticip default_config 0 0 1) as [H1 H2].
  assert (P1 : (0 < duration_adjustments (statistics (optimize ex_anticip default_config 0 0 1)))%nat)
    by (vm_compute; lia).
  assert (P2 : (0 < anticipated_subtitles (statistics (optimize ex_anticip default_config 0 0 1)))%nat)
    by (vm_compute; lia).
  split; [exact P1|]. split; [exact (H1 P1)|]. split; [exact P2 | exact (H2 P2)].
Defined.

Lemma analyze_durations_spec_witness :
  exists a, _analyze_durations ex_s4 default_config = Some a /\
    ss_min (dur_stats a) <= ss_avg (dur_stats a) <= ss_max (dur_stats a).
Proof.
  eexists. split; [reflexivity|].
  exact (proj1 (proj2 (proj2 (proj2 (proj2 (analyze_durations_spec ex_s4 default_config) _ eq_refl))))).
Defined.

Lemma analyze_gaps_spec_witness :
  (2 <= List.length ex_overlap)%nat /\
  exists g, _analyze_gaps ex_overlap default_config = inr (Some g) /\
    gap_overlaps g = List.length (detect_overlaps ex_overlap) /\
    ((0 < gap_overlaps g)%nat <-> ss_min (gap_stats g) < 0).
Proof.
  assert (H : (2 <= List.length ex_overlap)%nat) by (simpl; lia).
  split; [exact H|].
  destruct (proj2 (analyze_gaps_spec ex_overlap default_config) H) as (g & Hg & H1 & _ & _ & _ & H5).
  exists g. split; [exact Hg|]. split; [exact H1 | exact H5].
Defined.

Lemma analyze_reading_speeds_spec_witness :
  exists a, _analyze_reading_speeds ex_s4 default_config = inr a /\
    0 <= ss_min (speed_stats a) <= ss_avg (speed_stats a) /\
    ss_avg (speed_stats a) <= ss_max (speed_stats a).
Proof.
  eexists. split; [reflexivity|].
  destruct (proj2 (analyze_reading_speeds_spec ex_s4 default_config) _ eq_refl) as (H1 & H2 & _).
  split; assumption.
Defined.

Lemma sample_indices_spec_witness :
  (1 <= 2)%Z /\
  exists idx, sample_indices 5 2 = Some idx /\ (List.length idx <= 2)%nat /\
    Forall (fun i => (i < 5)%nat) idx /\ chain lt idx.
Proof.
  assert (H : (1 <= 2)%Z) by lia. split; [exact H|].
  destruct (proj2 (sample_indices_spec 5 2) H) as (idx & H1 & H2 & H3 & H4 & _).
  exists idx. repeat split; assumption.
Defined.

Lemma preview_optimization_spec_witness :
  ex_removed_first <> [] /\ (1 <= 3)%Z /\
  exists idx ps, sample_indices (List.length ex_removed_first) 3 = Some idx /\
    preview_optimization ex_removed_first default_config 3 =
      Some (Preview (List.length ps) (List.length ex_removed_first) ps) /\
    (List.length ps <= 3)%nat.
Proof.
  assert (H1 : ex_removed_first <> []) by discriminate.
  assert (H2 : (1 <= 3)%Z) by lia.
  split; [exact H1|]. split; [exact H2|].
  destruct (proj2 (preview_optimization_spec ex_removed_first default_config 3 H1) H2)
    as (idx & ps & A1 & A2 & A3 & _).
  exists idx, ps. split; [exact A1|]. split; [exact A2 | exact A3].
Defined.

Lemma char_count_bounds_witness :
  Forall (fun c => c <> "<"%char /\ c <> "{"%char) (list_ascii_of_string (text (sub 0 0 1 " ab "))) /\
  char_count (sub 0 0 1 " ab ") = List.length (py_strip (list_ascii_of_string (text (sub 0 0 1 " ab ")))).
Proof.
  assert (H : Forall (fun c => c <> "<"%char /\ c <> "{"%char)
                (list_ascii_of_string (text (sub 0 0 1 " ab ")))).
  { simpl. repeat constructor; discriminate. }
  split; [exact H|]. exact (proj2 (char_count_bounds (sub 0 0 1 " ab ")) H).
Defined.
